(** * DREM: the Timekeeper race-session controller and the upload-status poller

    A shallow embedding of
    - [website/src/admin/timekeeper/timekeeper.js] (React function component
      [Timekeeper]: lap capture, undo, validity toggle, end of session and the
      fastest-lap effect), and
    - the class component [CarModelUploadModal] (upload of a model to a car
      and the polling of the command status),
    together with the properties the specification states about them.

    Numbers are JavaScript numbers restricted to the integers (lap times are
    millisecond counts) plus [NaN]; a JavaScript object is a finite map from
    property names to values; an array is a list of slots, a slot being an
    object, [undefined] or a hole. *)

From Stdlib Require Import ZArith Lia.
From stdpp Require Import gmap strings list fin_maps.

(** ** JavaScript values, objects and arrays *)

Module JS.

Inductive number := Num (z : Z) | NaN.

Inductive jsval :=
  | JUndefined
  | JNull
  | JBool (b : bool)
  | JNumber (n : number).

#[global] Instance number_eq_dec : EqDecision number.
Proof. solve_decision. Defined.

#[global] Instance jsval_eq_dec : EqDecision jsval.
Proof. solve_decision. Defined.

(** An object: property name to value; a property that is not in the map is
    absent. *)
Abbreviation obj := (gmap string jsval).

(** A slot of an array: a hole (no element stored at that index), the value
    [undefined], or an object. *)
Inductive item := Hole | Undef | Obj (o : obj).

Inductive error := TypeError.

Inductive result (A : Type) :=
  | Ok (a : A)
  | Throw (e : error).
Arguments Ok {A} a.
Arguments Throw {A} e.

#[global] Instance result_ret : MRet result := fun A a => Ok a.
#[global] Instance result_bind : MBind result := fun A B f m =>
  match m with
  | Ok a => f a
  | Throw e => Throw e
  end.

(** [o.k]: reading an absent property gives [undefined]. *)
Definition get (o : obj) (k : string) : jsval := default JUndefined (o !! k).

Definition ToNumber (v : jsval) : number :=
  match v with
  | JUndefined => NaN
  | JNull => Num 0
  | JBool true => Num 1
  | JBool false => Num 0
  | JNumber n => n
  end.

Definition ToBoolean (v : jsval) : bool :=
  match v with
  | JUndefined | JNull => false
  | JBool b => b
  | JNumber (Num z) => negb (z =? 0)%Z
  | JNumber NaN => false
  end.

(** [!v] *)
Definition js_not (v : jsval) : bool := negb (ToBoolean v).

(** [a === b]: same type and same value, [NaN] equal to nothing. *)
Definition strict_eq (a b : jsval) : bool :=
  match a, b with
  | JNumber NaN, _ | _, JNumber NaN => false
  | _, _ => bool_decide (a = b)
  end.

Definition num_add (a b : number) : number :=
  match a, b with
  | Num x, Num y => Num (x + y)
  | _, _ => NaN
  end.

(** [a + b] on operands that are neither strings nor objects. *)
Definition js_plus (a b : jsval) : number := num_add (ToNumber a) (ToNumber b).

Definition num_min (a b : number) : number :=
  match a, b with
  | Num x, Num y => Num (Z.min x y)
  | _, _ => NaN
  end.

(** [Math.min.apply(Math, x :: xs)], at least one argument. *)
Definition Math_min (x : jsval) (xs : list jsval) : number :=
  foldl (fun acc v => num_min acc (ToNumber v)) (ToNumber x) xs.

(** [[...a]]: the iterator of an array yields [undefined] at a hole. *)
Definition spread (a : list item) : list item :=
  (fun x => match x with Hole => Undef | _ => x end) <$> a.

(** [a[i]]: the object stored at [i]; [None] stands for [undefined] (index out
    of range, a hole, or a stored [undefined]). *)
Definition index (a : list item) (i : nat) : option obj :=
  match a !! i with
  | Some (Obj o) => Some o
  | _ => None
  end.

(** [{...v}]: spreading [undefined] gives the empty object. *)
Definition obj_spread (v : option obj) : obj := default ∅ v.

(** [a[i] = v]: in range the slot is replaced; out of range the array is
    extended with holes up to index [i]. *)
Definition array_set (a : list item) (i : nat) (v : item) : list item :=
  if decide (i < length a) then <[i:=v]> a
  else a ++ replicate (i - length a) Hole ++ [v].

(** [a.pop()]: the array without its last slot and the value removed
    ([undefined] on the empty array and at a hole). *)
Definition pop (a : list item) : list item * option obj :=
  (removelast a, match last a with Some (Obj o) => Some o | _ => None end).

End JS.

(** ** The Timekeeper component *)

Module Timekeeper.
Import JS.

(** The component's state: the [useState] cells in the order of the source,
    then the values exposed by the hooks [useCounter] and [useTimer]. The
    [fastestLap] cell is written only by the effect on [laps], see
    [fastestLapEffect]. [username] is [None] when it is [undefined]. *)
Record state := mkState {
  racerSelecorModalIsVisible : bool;
  endSessionModalIsVisible : bool;
  timerIsReset : bool;
  username : option string;
  currentLap : obj;
  laps : list item;
  carResetCounter : Z;
  timeInMilliseconds : number;
  lapTimerIsRunning : bool
}.

Definition SetRacerSelectorModalIsVisible (b : bool) (s : state) : state :=
  mkState b (endSessionModalIsVisible s) (timerIsReset s) (username s)
    (currentLap s) (laps s) (carResetCounter s) (timeInMilliseconds s)
    (lapTimerIsRunning s).

Definition SetEndSessionModalIsVisible (b : bool) (s : state) : state :=
  mkState (racerSelecorModalIsVisible s) b (timerIsReset s) (username s)
    (currentLap s) (laps s) (carResetCounter s) (timeInMilliseconds s)
    (lapTimerIsRunning s).

Definition SetTimerIsReset (b : bool) (s : state) : state :=
  mkState (racerSelecorModalIsVisible s) (endSessionModalIsVisible s) b
    (username s) (currentLap s) (laps s) (carResetCounter s)
    (timeInMilliseconds s) (lapTimerIsRunning s).

Definition SetUsername (u : option string) (s : state) : state :=
  mkState (racerSelecorModalIsVisible s) (endSessionModalIsVisible s)
    (timerIsReset s) u (currentLap s) (laps s) (carResetCounter s)
    (timeInMilliseconds s) (lapTimerIsRunning s).

Definition SetCurrentLap (o : obj) (s : state) : state :=
  mkState (racerSelecorModalIsVisible s) (endSessionModalIsVisible s)
    (timerIsReset s) (username s) o (laps s) (carResetCounter s)
    (timeInMilliseconds s) (lapTimerIsRunning s).

Definition SetLaps (l : list item) (s : state) : state :=
  mkState (racerSelecorModalIsVisible s) (endSessionModalIsVisible s)
    (timerIsReset s) (username s) (currentLap s) l (carResetCounter s)
    (timeInMilliseconds s) (lapTimerIsRunning s).

Definition setCounter (c : Z) (s : state) : state :=
  mkState (racerSelecorModalIsVisible s) (endSessionModalIsVisible s)
    (timerIsReset s) (username s) (currentLap s) (laps s) c
    (timeInMilliseconds s) (lapTimerIsRunning s).

Definition setTime (t : number) (s : state) : state :=
  mkState (racerSelecorModalIsVisible s) (endSessionModalIsVisible s)
    (timerIsReset s) (username s) (currentLap s) (laps s) (carResetCounter s)
    t (lapTimerIsRunning s).

Definition setRunning (b : bool) (s : state) : state :=
  mkState (racerSelecorModalIsVisible s) (endSessionModalIsVisible s)
    (timerIsReset s) (username s) (currentLap s) (laps s) (carResetCounter s)
    (timeInMilliseconds s) b.

(** *** The hooks [useCounter] and [useTimer] *)

(** Modelled from the spec: the hook [hooks/useCounter] is not among the
    sources. "Contract: increment(), decrement() (must not go below zero),
    reset() sets to zero." *)
Definition incrementCarResetCounter (s : state) : state :=
  setCounter (carResetCounter s + 1) s.

(** Modelled from the spec: [hooks/useCounter], decrement clamped at zero. *)
Definition decrementCarResetCounter (s : state) : state :=
  setCounter (Z.max 0 (carResetCounter s - 1)) s.

(** Modelled from the spec: [hooks/useCounter], reset sets to zero. *)
Definition resetCarResetCounter (s : state) : state := setCounter 0 s.

(** Modelled from the spec: the hook [hooks/useTimer] is not among the
    sources. "start() resumes counting from current accumulated value". *)
Definition startLapTimer (s : state) : state := setRunning true s.

(** Modelled from the spec: [hooks/useTimer], "pause() halts and freezes
    accumulated value". *)
Definition pauseLapTimer (s : state) : state := setRunning false s.

(** Modelled from the spec: [hooks/useTimer], "reset(toMs=0) sets
    accumulated value to toMs". The argument is the value the caller passes;
    [resetLapTimer0] is the call without argument. *)
Definition resetLapTimer (toMs : number) (s : state) : state := setTime toMs s.

(** Modelled from the spec: [hooks/useTimer], the call [resetLapTimer()],
    whose argument defaults to 0. *)
Definition resetLapTimer0 (s : state) : state := resetLapTimer (Num 0) s.

(** Modelled from the spec: [hooks/useTimer], the passing of [d]
    milliseconds: a running stopwatch accumulates them, a paused one keeps
    its value. *)
Definition elapse (d : Z) (s : state) : state :=
  if lapTimerIsRunning s then setTime (num_add (timeInMilliseconds s) (Num d)) s
  else s.

(** *** The fastest-lap effect *)

(** [laps.filter((o) => o.isValid === true)]: [filter] does not visit holes;
    reading [isValid] of a stored [undefined] throws. *)
Fixpoint validLaps (l : list item) : result (list obj) :=
  match l with
  | [] => Ok []
  | Hole :: r => validLaps r
  | Undef :: r => Throw TypeError
  | Obj o :: r =>
      vs ← validLaps r;
      Ok (if strict_eq (get o "isValid") (JBool true) then o :: vs else vs)
  end.

(** The body of the effect on [laps]: the value given to [SetFastestLap]. *)
Definition fastestLapEffect (laps : list item) : result (list item) :=
  if (length laps =? 0)%nat then Ok []
  else
    validLaps ← validLaps laps;
    match validLaps with
    | [] => Ok []
    | v :: vs =>
        let res := Math_min (get v "time") ((fun o => get o "time") <$> vs) in
        let obj := find (fun o => strict_eq (get o "time") (JNumber res)) (v :: vs) in
        Ok [match obj with Some o => Obj o | None => Undef end]
    end.

(** *** Handlers

    A handler runs on the state of the render it was created in; between two
    operator events the component has re-rendered, so the [laps] a handler
    closes over and the [prevState] its updater receives are the same list. *)

(** The object literal [{ id: null, time: 0, resets: 0, crashes: 0,
    isValid: false }] that initialises and resets [currentLap]. *)
Definition emptyLap : obj :=
  <["isValid" := JBool false]> (<["crashes" := JNumber (Num 0)]>
    (<["resets" := JNumber (Num 0)]> (<["time" := JNumber (Num 0)]>
      (<["id" := JNull]> ∅)))).

Definition endSessionHandler (s : state) : state :=
  SetEndSessionModalIsVisible true s.

Definition captureNewLapHandler (lapIsValid : bool) (s : state) : state :=
  let lapId := length (laps s) in
  let currentLapStats : obj :=
    <["isValid" := JBool lapIsValid]>
      (<["time" := JNumber (timeInMilliseconds s)]>
        (<["id" := JNumber (Num (Z.of_nat lapId))]>
          (<["resets" := JNumber (Num (carResetCounter s))]> (currentLap s)))) in
  let s := SetLaps (spread (laps s) ++ [Obj currentLapStats]) s in
  let s := SetCurrentLap emptyLap s in
  let s := resetCarResetCounter s in
  resetLapTimer0 s.

Definition resetRace (s : state) : state :=
  let s := SetUsername None s in
  let s := SetTimerIsReset true s in
  let s := pauseLapTimer s in
  let s := resetLapTimer0 s in
  let s := SetLaps [] s in
  let s := SetCurrentLap emptyLap s in
  let s := SetEndSessionModalIsVisible false s in
  SetRacerSelectorModalIsVisible true s.

Definition submitRaceHandler (s : state) : state := resetRace s.

Definition abandonRaceHandler (s : state) : state := resetRace s.

Definition raceIsOverHandler (s : state) : state := pauseLapTimer s.

Definition raceStartedHandler (name : string) (s : state) : state :=
  let s := SetUsername (Some name) s in
  let s := SetRacerSelectorModalIsVisible false s in
  SetTimerIsReset false s.

Definition actionHandler (id : nat) (s : state) : state :=
  let lapsCopy := spread (laps s) in
  let updatedLap := obj_spread (index (laps s) id) in
  let updatedLap := <["isValid" := JBool (js_not (get updatedLap "isValid"))]> updatedLap in
  let lapsCopy := array_set lapsCopy id (Obj updatedLap) in
  SetLaps lapsCopy s.

Definition raceHandler (s : state) : state :=
  match username s with
  | None => pauseLapTimer (SetRacerSelectorModalIsVisible true s)
  | Some _ => if lapTimerIsRunning s then pauseLapTimer s else startLapTimer s
  end.

Definition endSessionModalDismissed (s : state) : state :=
  SetEndSessionModalIsVisible false s.

Definition racerSelectionModalDismissedHandler (s : state) : state :=
  SetRacerSelectorModalIsVisible false s.

(** The updater given to [SetLaps] pops the copy and reads [lastLap.time];
    on an empty copy [pop] returns [undefined] and the read throws. *)
Definition undoFalseFinishHandler (s : state) : result state :=
  let updatedLaps := spread (laps s) in
  let '(updatedLaps, lastLap) := pop updatedLaps in
  match lastLap with
  | None => Throw TypeError
  | Some lastLap =>
      let s := resetLapTimer (js_plus (JNumber (timeInMilliseconds s)) (get lastLap "time")) s in
      Ok (SetLaps updatedLaps s)
  end.

(** *** The controls

    The seven buttons of the panel, in the order of the source; apart from
    [End Race] and [Start Race / Pause Race] they are disabled while the lap
    timer is not running. *)
Inductive button :=
  | BtnDNF
  | BtnCarReset
  | BtnCaptureLap
  | BtnMinus1
  | BtnUndoFalseFinish
  | BtnEndRace
  | BtnStartPauseRace.

Definition disabled (b : button) (s : state) : bool :=
  match b with
  | BtnEndRace | BtnStartPauseRace => false
  | _ => negb (lapTimerIsRunning s)
  end.

Definition onClick (b : button) (s : state) : result state :=
  match b with
  | BtnDNF => Ok (captureNewLapHandler false s)
  | BtnCarReset => Ok (incrementCarResetCounter s)
  | BtnCaptureLap => Ok (captureNewLapHandler true s)
  | BtnMinus1 => Ok (decrementCarResetCounter s)
  | BtnUndoFalseFinish => undoFalseFinishHandler s
  | BtnEndRace => Ok (endSessionHandler s)
  | BtnStartPauseRace => Ok (raceHandler s)
  end.

(** A click reaches the handler only when the button is enabled. *)
Definition click (b : button) (s : state) : result state :=
  if disabled b s then Ok s else onClick b s.

(** The state of the first render. *)
Definition initial : state :=
  mkState true false false None emptyLap [] 0 (Num 0) false.

(** The states of the specification's session state machine, read off the
    component: no racer selected, stopwatch running, stopwatch halted. *)
Inductive phase := AwaitingRacer | Racing | Paused.

Definition phase_of (s : state) : phase :=
  match username s with
  | None => AwaitingRacer
  | Some _ => if lapTimerIsRunning s then Racing else Paused
  end.

(** *** Runs of operator calls during a race *)

Inductive call :=
  | CaptureLap (lapIsValid : bool)
  | UndoFalseFinish
  | CarReset
  | Minus1
  | Elapse (d : Z).

Definition do_call (c : call) (s : state) : result state :=
  match c with
  | CaptureLap b => Ok (captureNewLapHandler b s)
  | UndoFalseFinish => undoFalseFinishHandler s
  | CarReset => Ok (incrementCarResetCounter s)
  | Minus1 => Ok (decrementCarResetCounter s)
  | Elapse d => Ok (elapse d s)
  end.

Fixpoint run (cs : list call) (s : state) : result state :=
  match cs with
  | [] => Ok s
  | c :: cs => s' ← do_call c s; run cs s'
  end.

(** Every undo of the run meets a non-empty lap sequence, [n] being the
    number of laps before the run. *)
Fixpoint undo_on_nonempty (n : nat) (cs : list call) : bool :=
  match cs with
  | [] => true
  | CaptureLap _ :: cs => undo_on_nonempty (S n) cs
  | UndoFalseFinish :: cs =>
      match n with
      | O => false
      | S m => undo_on_nonempty m cs
      end
  | _ :: cs => undo_on_nonempty n cs
  end.

(** [laps[i].id == i] at every index. *)
Definition dense (l : list item) : Prop :=
  ∀ i, i < length l →
    ∃ o, l !! i = Some (Obj o) ∧ o !! "id" = Some (JNumber (Num (Z.of_nat i))).

(** *** Laps of the data model *)

(** A slot holding a Lap: an object with an integer [time] and a boolean
    [isValid]. *)
Definition is_lap (x : item) : Prop :=
  ∃ o t b, x = Obj o ∧ o !! "time" = Some (JNumber (Num t))
           ∧ o !! "isValid" = Some (JBool b).

Definition lap (id time resets : Z) (isValid : bool) : obj :=
  <["isValid" := JBool isValid]> (<["time" := JNumber (Num time)]>
    (<["id" := JNumber (Num id)]> (<["resets" := JNumber (Num resets)]> emptyLap))).

Definition example_laps : list item :=
  [Obj (lap 0 1000 0 true); Obj (lap 1 900 0 false); Obj (lap 2 1100 0 true)].

(** A valid Lap of time [t]. *)
Definition valid_lap (o : obj) (t : Z) : Prop :=
  o !! "isValid" = Some (JBool true) ∧ o !! "time" = Some (JNumber (Num t)).

(** A session in which a racer is selected, the race is started, [Car Reset]
    is clicked twice and [End Race] is clicked. *)
Definition session_with_two_resets : result state :=
  s ← click BtnStartPauseRace (raceStartedHandler "racer" initial);
  s ← click BtnCarReset s;
  s ← click BtnCarReset s;
  click BtnEndRace s.

(** A session in which a racer is selected and the race is started. *)
Definition race_started : result state :=
  click BtnStartPauseRace (raceStartedHandler "racer" initial).

(** A session in which a racer is selected and the race is not started. *)
Definition race_not_started : state := raceStartedHandler "racer" initial.

(** A session in which a racer is selected, the race is started and then
    paused with the [Pause Race] button. *)
Definition race_paused : result state :=
  s ← race_started; click BtnStartPauseRace s.

(** *** Every event of the component

    The clicks on the panel, the callbacks given to [RacerSelectionModal]
    ([onRacerSelected], [onDismiss]), to [EndSessionModal] ([onSubmitRace],
    [onAbandonRace], [onDismiss], [onAction]), to the two [LapTable]s
    ([onAction]) and to [CountDownTimer] ([onExpire]), and the passing of
    time. *)
Inductive ui_event :=
  | Click (b : button)
  | RacerSelected (name : string)
  | RacerSelectionDismissed
  | SubmitRace
  | AbandonRace
  | EndSessionDismissed
  | LapAction (id : nat)
  | RaceExpired
  | TimePasses (d : Z).

Definition handle (e : ui_event) (s : state) : result state :=
  match e with
  | Click b => click b s
  | RacerSelected name => Ok (raceStartedHandler name s)
  | RacerSelectionDismissed => Ok (racerSelectionModalDismissedHandler s)
  | SubmitRace => Ok (submitRaceHandler s)
  | AbandonRace => Ok (abandonRaceHandler s)
  | EndSessionDismissed => Ok (endSessionModalDismissed s)
  | LapAction id => Ok (actionHandler id s)
  | RaceExpired => Ok (raceIsOverHandler s)
  | TimePasses d => Ok (elapse d s)
  end.

Fixpoint handle_all (es : list ui_event) (s : state) : result state :=
  match es with
  | [] => Ok s
  | e :: es => s' ← handle e s; handle_all es s'
  end.

(** The events that need a running lap timer to have an effect: the clicks
    on the five buttons that are disabled otherwise, and the passing of
    time. *)
Definition needs_running (e : ui_event) : bool :=
  match e with
  | Click (BtnEndRace | BtnStartPauseRace) => false
  | Click _ => true
  | TimePasses _ => true
  | _ => false
  end.

(** Every slot holds an object. *)
Definition all_objects (l : list item) : Prop :=
  Forall (λ x, ∃ o, x = Obj o) l.

End Timekeeper.



(** ** The upload modal and its status poll *)

Module UploadModal.

(** Values held by the component: [undefined], a string, or the paragraph
    element [<p>text</p>] the component renders as a result. The body of a
    response of the remote API is such a value. *)
Inductive value :=
  | VUndefined
  | VStr (s : string)
  | VElem (text : string).

#[global] Instance value_eq_dec : EqDecision value.
Proof. solve_decision. Defined.

Record car := mkCar { InstanceId : string; ComputerName : string }.

Record model := mkModel { key : string }.

(** [this.state] *)
Record cstate := mkCState {
  open : bool;
  resultOpen : bool;
  result : value;
  CurrentInstanceId : value;
  CommandId : value;
  uploadStatus : value;
  count : nat;
  delay : nat
}.

(** A call of [API.post('deepracerEventManager', apiPath, {body})]. *)
Inductive request :=
  | PostUpload (instanceId key : string)
  | PostStatus (instanceId commandId : value).

Definition apiPath (r : request) : string :=
  match r with
  | PostUpload _ _ => "cars/upload"
  | PostStatus _ _ => "cars/upload/status"
  end.

(** How the promise of a request settles. *)
Inductive outcome :=
  | Resolved (response : value)
  | Rejected.

(** The component instance in its environment: [this.state], the field
    [this.interval] ([None] while unassigned), the interval timers that are
    active (identifier and period), the identifier the next [setInterval]
    returns, every request issued so far (a request is identified by its
    position) and the identifiers of the requests not settled yet. *)
Record world := mkWorld {
  st : cstate;
  interval : option nat;
  timers : list (nat * nat);
  next_timer : nat;
  calls : list request;
  pending : list nat
}.

Definition setSt (f : cstate → cstate) (w : world) : world :=
  mkWorld (f (st w)) (interval w) (timers w) (next_timer w) (calls w) (pending w).

Definition set_open (b : bool) (c : cstate) : cstate :=
  mkCState b (resultOpen c) (result c) (CurrentInstanceId c) (CommandId c)
    (uploadStatus c) (count c) (delay c).

Definition set_resultOpen (b : bool) (c : cstate) : cstate :=
  mkCState (open c) b (result c) (CurrentInstanceId c) (CommandId c)
    (uploadStatus c) (count c) (delay c).

Definition set_result (v : value) (c : cstate) : cstate :=
  mkCState (open c) (resultOpen c) v (CurrentInstanceId c) (CommandId c)
    (uploadStatus c) (count c) (delay c).

Definition set_CurrentInstanceId (v : value) (c : cstate) : cstate :=
  mkCState (open c) (resultOpen c) (result c) v (CommandId c)
    (uploadStatus c) (count c) (delay c).

Definition set_CommandId (v : value) (c : cstate) : cstate :=
  mkCState (open c) (resultOpen c) (result c) (CurrentInstanceId c) v
    (uploadStatus c) (count c) (delay c).

Definition set_uploadStatus (v : value) (c : cstate) : cstate :=
  mkCState (open c) (resultOpen c) (result c) (CurrentInstanceId c) (CommandId c)
    v (count c) (delay c).

Definition set_count (n : nat) (c : cstate) : cstate :=
  mkCState (open c) (resultOpen c) (result c) (CurrentInstanceId c) (CommandId c)
    (uploadStatus c) n (delay c).

(** [API.post]: the request is issued and its promise is pending. *)
Definition post (r : request) (w : world) : world :=
  mkWorld (st w) (interval w) (timers w) (next_timer w)
    (calls w ++ [r]) (pending w ++ [length (calls w)]).

(** [this.interval = setInterval(this.tick, d)] *)
Definition setInterval (d : nat) (w : world) : world :=
  mkWorld (st w) (Some (next_timer w)) (timers w ++ [(next_timer w, d)])
    (S (next_timer w)) (calls w) (pending w).

(** [clearInterval(this.interval)]; clearing [undefined] or a timer that is
    not active does nothing. *)
Definition clearInterval (w : world) : world :=
  match interval w with
  | None => w
  | Some id =>
      mkWorld (st w) (interval w)
        (filter (λ t, t.1 ≠ id) (timers w))
        (next_timer w) (calls w) (pending w)
  end.

(** The constructor followed by [componentDidMount]. *)
Definition mounted : world :=
  mkWorld
    (mkCState false false (VElem "Mounted") (VStr EmptyString) (VStr EmptyString)
       (VStr EmptyString) 0 1000)
    None [] 0 [] [].

(** [uploadModelToCar] up to its [await]. *)
Definition uploadModelToCar_start (c : car) (m : model) (w : world) : world :=
  post (PostUpload (InstanceId c) (key m)) w.

(** [uploadModelToCar] from its [await] on, for the car of the request: the
    new world and how the promise of the function settles. *)
Definition uploadModelToCar_resume (instanceId : string) (o : outcome) (w : world)
  : world * outcome :=
  match o with
  | Rejected => (w, Rejected)
  | Resolved response =>
      let w := setSt (set_result response) w in
      let w := setSt (set_CommandId response) w in
      let w := setSt (set_CurrentInstanceId (VStr instanceId)) w in
      let w := setSt (set_uploadStatus (VStr "InProgress")) w in
      let w := setInterval (delay (st w)) w in
      (w, Resolved response)
  end.

(** [uploadModelToCarStatus] up to its [await]. *)
Definition uploadModelToCarStatus_start (instanceId commandId : value) (w : world)
  : world :=
  post (PostStatus instanceId commandId) w.

(** [uploadModelToCarStatus] from its [await] on. *)
Definition uploadModelToCarStatus_resume (o : outcome) (w : world)
  : world * outcome :=
  match o with
  | Rejected => (w, Rejected)
  | Resolved response =>
      let w := setSt (set_result response) w in
      let w := setSt (set_uploadStatus response) w in
      (w, Resolved response)
  end.

(** [tick], the callback of the interval. *)
Definition tick (w : world) : world :=
  let w := setSt (set_count (count (st w) + 1)) w in
  let w := uploadModelToCarStatus_start (CurrentInstanceId (st w)) (CommandId (st w)) w in
  if decide (uploadStatus (st w) ≠ VStr "InProgress") then clearInterval w
  else w.

(** *** Events *)

Inductive event :=
  | UploadClick (c : car) (m : model)
  | CloseClick
  | RefreshClick
  | ResultDismissed
  | TimerFires (id : nat)
  | Settles (rid : nat) (o : outcome).

(** The continuation of the function awaiting request [rid]. A promise
    settles once: an identifier that is not pending changes nothing. *)
Definition settle (rid : nat) (o : outcome) (w : world) : world :=
  if decide (rid ∈ pending w) then
    let w := mkWorld (st w) (interval w) (timers w) (next_timer w) (calls w)
               (filter (λ r, r ≠ rid) (pending w)) in
    match calls w !! rid with
    | Some (PostUpload instanceId _) => (uploadModelToCar_resume instanceId o w).1
    | Some (PostStatus _ _) => (uploadModelToCarStatus_resume o w).1
    | None => w
    end
  else w.

Definition step (e : event) (w : world) : world :=
  match e with
  | UploadClick c m =>
      let w := setSt (set_result (VElem "Uploading...")) w in
      let w := setSt (set_open false) w in
      let w := setSt (set_resultOpen true) w in
      uploadModelToCar_start c m w
  | CloseClick =>
      let w := setSt (set_resultOpen false) w in
      let w := setSt (set_result (VStr EmptyString)) w in
      clearInterval w
  | RefreshClick =>
      uploadModelToCarStatus_start (CurrentInstanceId (st w)) (CommandId (st w)) w
  | ResultDismissed => setSt (set_resultOpen false) w
  | TimerFires id =>
      if decide (id ∈ (timers w).*1) then tick w else w
  | Settles rid o => settle rid o w
  end.

Definition steps (es : list event) (w : world) : world :=
  foldl (λ w e, step e w) w es.

(** The number of status queries issued so far. *)
Definition status_queries (w : world) : nat :=
  length (filter (λ r, apiPath r = "cars/upload/status") (calls w)).

(** The recurring loop over [n] periods of timer [t]: at each period the
    timer is due and the query issued at that period, if any, is answered by
    the next response of [responses] before the following period. *)
Fixpoint poll_loop (t : nat) (responses : list value) (n : nat) (w : world) : world :=
  match n with
  | O => w
  | S n =>
      let rid := length (calls w) in
      let w := step (TimerFires t) w in
      match responses with
      | [] => poll_loop t [] n w
      | r :: rs => poll_loop t rs n (step (Settles rid (Resolved r)) w)
      end
  end.

(** The loop of timer [t] is the one recurring loop and the task is in
    progress: the state reached when an upload has just been initiated. *)
Definition polling (t : nat) (w : world) : Prop :=
  interval w = Some t ∧ (timers w).*1 = [t]
  ∧ uploadStatus (st w) = VStr "InProgress".

Definition car1 : car := mkCar "i-0123" "deepracer-1".

Definition model1 : model := mkModel "models/racer/model.tar.gz".

(** The upload of [model1] to [car1], answered with a command id. *)
Definition uploading : world :=
  steps [UploadClick car1 model1; Settles 0 (Resolved (VStr "cmd-1"))] mounted.

(** The same upload, answered without a command id. *)
Definition uploading_without_command_id : world :=
  steps [UploadClick car1 model1; Settles 0 (Resolved VUndefined)] mounted.

(** One period later the result view is closed while the status query of
    that period is still pending. *)
Definition closed_mid_flight : world :=
  steps [TimerFires 0; CloseClick] uploading.

(** While the first upload is polled the result view is dismissed (not with
    its Close button) and a second upload is started and answered. *)
Definition second_upload : world :=
  steps [ResultDismissed; UploadClick car1 model1;
         Settles 1 (Resolved (VStr "cmd-2"))] uploading.

(** The recurring loop of timer [t], one period per element of [os]: the
    timer is due, and the query issued at that period is settled before the
    next period as the element says, or stays pending when it is [None]. *)
Fixpoint poll_outcomes (t : nat) (os : list (option outcome)) (w : world) : world :=
  match os with
  | [] => w
  | o :: os =>
      let rid := length (calls w) in
      let w := step (TimerFires t) w in
      poll_outcomes t os
        (match o with
         | Some o => step (Settles rid o) w
         | None => w
         end)
  end.

(** What a period can bring without a terminal status: no answer yet, a
    failed request, or the answer [InProgress]. *)
Definition not_terminal (o : option outcome) : Prop :=
  ∀ response, o = Some (Resolved response) → response = VStr "InProgress".

(** The number of clicks on Refresh among the events. *)
Fixpoint refreshes (es : list event) : nat :=
  match es with
  | [] => 0
  | RefreshClick :: es => S (refreshes es)
  | _ :: es => refreshes es
  end.

(** [componentWillUnmount] *)
Definition componentWillUnmount (w : world) : world := clearInterval w.

(** Timer [t] is active but is not the one [this.interval] holds. *)
Definition orphaned (t : nat) (w : world) : Prop :=
  t ∈ (timers w).*1 ∧ interval w ≠ Some t ∧ t < next_timer w.

End UploadModal.




(** ** Properties of the Timekeeper *)

Module TimekeeperSpec.
Import JS Timekeeper.

Lemma spread_length (l : list item) : length (spread l) = length l.
Proof. unfold spread. apply length_fmap. Qed.

Lemma spread_app (a b : list item) : spread (a ++ b) = spread a ++ spread b.
Proof. unfold spread. apply fmap_app. Qed.

Lemma spread_no_hole (l : list item) :
  Forall (λ x, x ≠ Hole) l → spread l = l.
Proof.
  induction 1 as [|x l Hx _ IH]; [done|].
  unfold spread in *. rewrite fmap_cons, IH. by destruct x.
Qed.

Lemma dense_no_hole (l : list item) : dense l → Forall (λ x, x ≠ Hole) l.
Proof.
  intros Hd. apply Forall_lookup_2. intros i x Hi.
  destruct (Hd i) as (o & Ho & _); [by eapply lookup_lt_Some|].
  congruence.
Qed.

Lemma dense_spread (l : list item) : dense l → spread l = l.
Proof. intros Hd. by apply spread_no_hole, dense_no_hole. Qed.

Lemma dense_nil : dense [].
Proof. intros i Hi. simpl in Hi. lia. Qed.

Lemma dense_snoc (l : list item) (o : obj) :
  dense l →
  o !! "id" = Some (JNumber (Num (Z.of_nat (length l)))) →
  dense (l ++ [Obj o]).
Proof.
  intros Hd Ho i Hi. rewrite length_app in Hi. simpl in Hi.
  destruct (decide (i < length l)) as [Hlt|Hge].
  - destruct (Hd i Hlt) as (o' & Hl & Hid). exists o'.
    by rewrite lookup_app_l.
  - assert (i = length l) as -> by lia. exists o.
    by rewrite list_lookup_middle.
Qed.

Lemma dense_unsnoc (l : list item) (x : item) : dense (l ++ [x]) → dense l.
Proof.
  intros Hd i Hi. destruct (Hd i) as (o & Hl & Hid).
  - rewrite length_app. lia.
  - exists o. by rewrite lookup_app_l in Hl.
Qed.

Lemma dense_last (l : list item) (x : item) :
  dense (l ++ [x]) → ∃ o, x = Obj o.
Proof.
  intros Hd. destruct (Hd (length l)) as (o & Hl & _).
  - rewrite length_app. simpl. lia.
  - rewrite list_lookup_middle in Hl by done. exists o. congruence.
Qed.

Lemma pop_snoc (l : list item) (o : obj) : pop (l ++ [Obj o]) = (l, Some o).
Proof. unfold pop. by rewrite removelast_last, last_snoc. Qed.

Lemma laps_capture (b : bool) (s : state) :
  ∃ o, laps (captureNewLapHandler b s) = spread (laps s) ++ [Obj o]
       ∧ o !! "id" = Some (JNumber (Num (Z.of_nat (length (laps s)))))
       ∧ o !! "time" = Some (JNumber (timeInMilliseconds s))
       ∧ o !! "isValid" = Some (JBool b)
       ∧ o !! "resets" = Some (JNumber (Num (carResetCounter s))).
Proof.
  eexists. split; [reflexivity|]. by simplify_map_eq.
Qed.

Lemma length_capture (b : bool) (s : state) :
  length (laps (captureNewLapHandler b s)) = S (length (laps s)).
Proof.
  destruct (laps_capture b s) as (o & -> & _).
  rewrite length_app, spread_length. simpl. lia.
Qed.

Lemma run_dense (cs : list call) :
  ∀ s, dense (laps s) →
       undo_on_nonempty (length (laps s)) cs = true →
       ∃ s', run cs s = Ok s' ∧ dense (laps s').
Proof.
  induction cs as [|c cs IH]; intros s Hd Hcs.
  - by exists s.
  - destruct c as [b| | | |d]; simpl in *.
    + apply IH.
      * destruct (laps_capture b s) as (o & -> & Hid & _).
        rewrite dense_spread by done. by apply dense_snoc.
      * by rewrite length_capture.
    + destruct (laps s) as [|x l] eqn:Hl using rev_ind; [done|].
      clear IHl. rewrite length_app in Hcs. simpl in Hcs.
      replace (length l + 1) with (S (length l)) in Hcs by lia.
      destruct (dense_last _ _ Hd) as [o ->].
      unfold undoFalseFinishHandler.
      rewrite Hl, dense_spread, pop_snoc by done.
      apply IH; simpl; [by eapply dense_unsnoc|done].
    + by apply IH.
    + by apply IH.
    + apply IH; unfold elapse; by destruct (lapTimerIsRunning s).
Qed.

(** *** The fastest lap *)

Lemma get_some (o : obj) (k : string) (v : jsval) :
  o !! k = Some v → get o k = v.
Proof. unfold get. by intros ->. Qed.

Lemma strict_eq_num (a b : Z) :
  strict_eq (JNumber (Num a)) (JNumber (Num b)) = true ↔ a = b.
Proof.
  unfold strict_eq. rewrite bool_decide_eq_true.
  split; [congruence|by intros ->].
Qed.

Lemma validLaps_elem (l : list item) :
  ∀ vs o t, validLaps l = Ok vs → Obj o ∈ l → valid_lap o t → o ∈ vs.
Proof.
  induction l as [|x l IH]; intros vs o t Hv Hin [Hval Htime].
  - by apply elem_of_nil in Hin.
  - apply elem_of_cons in Hin. destruct x as [| |o']; simpl in Hv.
    + destruct Hin as [|Hin]; [done|]. by eapply IH.
    + done.
    + destruct (validLaps l) as [vs'|] eqn:Hl; [|done]. simpl in Hv.
      destruct Hin as [Heq|Hin].
      * simplify_eq. unfold get. rewrite Hval. simpl. apply elem_of_cons. by left.
      * assert (o ∈ vs') by (by eapply IH).
        injection Hv as <-. case_match; [apply elem_of_cons; by right|done].
Qed.

Lemma validLaps_split (l : list item) :
  Forall is_lap l →
  ∀ vpre o vpost, validLaps l = Ok (vpre ++ o :: vpost) →
    ∃ pre post t, l = pre ++ Obj o :: post ∧ valid_lap o t
                  ∧ validLaps pre = Ok vpre ∧ validLaps post = Ok vpost.
Proof.
  induction 1 as [|x l (o' & t' & b' & -> & Ht' & Hb') Hl IH];
    intros vpre o vpost Hv; simpl in Hv.
  - by destruct vpre.
  - destruct (validLaps l) as [vs|] eqn:Hvl; [|done]. simpl in Hv.
    unfold get in Hv. rewrite Hb' in Hv. simpl in Hv.
    injection Hv as Hv. destruct b'; simpl in Hv.
    + destruct vpre as [|p vpre]; simpl in Hv.
      * injection Hv as -> ->. exists [], l, t'. by split_and!.
      * injection Hv as -> ->.
        destruct (IH vpre o vpost eq_refl) as (pre & post & t & -> & Hvo & Hpre & Hpost).
        exists (Obj p :: pre), post, t. split_and!; [done|exact Hvo| |done].
        simpl. rewrite Hpre. simpl. unfold get. by rewrite Hb'.
    + subst vs.
      destruct (IH vpre o vpost eq_refl) as (pre & post & t & -> & Hvo & Hpre & Hpost).
      exists (Obj o' :: pre), post, t. split_and!; [done|exact Hvo| |done].
      simpl. rewrite Hpre. simpl. unfold get. by rewrite Hb'.
Qed.

Lemma validLaps_total (l : list item) :
  Forall is_lap l →
  ∃ vs, validLaps l = Ok vs
        ∧ Forall (λ o, ∃ t, valid_lap o t) vs.
Proof.
  induction 1 as [|x l (o & t & b & -> & Ht & Hb) Hl (vs & Hvs & Hall)].
  - by exists [].
  - simpl. rewrite Hvs. simpl. unfold get. rewrite Hb. eexists. split; [done|].
    destruct b; simpl; [|done]. apply Forall_cons. split; [|done]. by exists t.
Qed.

Lemma foldl_min_spec (vs : list obj) :
  Forall (λ o, ∃ t, valid_lap o t) vs →
  ∀ a, ∃ m, foldl (λ acc v, num_min acc (ToNumber v)) (Num a)
              ((λ o, get o "time") <$> vs) = Num m
            ∧ (m ≤ a)%Z
            ∧ (∀ o t, o ∈ vs → o !! "time" = Some (JNumber (Num t)) → (m ≤ t)%Z)
            ∧ (m = a ∨ ∃ o, o ∈ vs ∧ o !! "time" = Some (JNumber (Num m))).
Proof.
  induction 1 as [|o vs (t & _ & Ht) _ IH]; intros a.
  - exists a. repeat split; [lia| |by left]. intros o t Hin. by apply elem_of_nil in Hin.
  - rewrite fmap_cons. cbn [foldl]. rewrite (get_some _ _ _ Ht). cbn [ToNumber num_min].
    destruct (IH (Z.min a t)) as (m & Hm & Hle & Hall & Hex).
    exists m. split; [done|]. split; [lia|]. split.
    + intros o' t' Hin Ht'. apply elem_of_cons in Hin as [->|Hin].
      * rewrite Ht in Ht'. simplify_eq. lia.
      * by eapply Hall.
    + destruct Hex as [->|(o' & Hin & Ho')].
      * destruct (Z.min_spec a t) as [[_ ->]|[_ ->]]; [by left|].
        right. exists o. split; [apply elem_of_cons; by left|done].
      * right. exists o'. split; [apply elem_of_cons; by right|done].
Qed.

Lemma Math_min_spec (v : obj) (vs : list obj) :
  Forall (λ o, ∃ t, valid_lap o t) (v :: vs) →
  ∃ m, Math_min (get v "time") ((λ o, get o "time") <$> vs) = Num m
       ∧ (∀ o t, o ∈ v :: vs → o !! "time" = Some (JNumber (Num t)) → (m ≤ t)%Z)
       ∧ (∃ o, o ∈ v :: vs ∧ o !! "time" = Some (JNumber (Num m))).
Proof.
  intros Hall. apply Forall_cons in Hall as [(t & _ & Ht) Hall].
  unfold Math_min. rewrite (get_some _ _ _ Ht). cbn [ToNumber].
  destruct (foldl_min_spec vs Hall t) as (m & Hm & Hle & Hmin & Hex).
  exists m. split; [done|]. split.
  - intros o t' Hin Ht'. apply elem_of_cons in Hin as [->|Hin].
    + rewrite Ht in Ht'. simplify_eq. lia.
    + by eapply Hmin.
  - destruct Hex as [->|(o & Hin & Ho)].
    + exists v. split; [apply elem_of_cons; by left|done].
    + exists o. split; [apply elem_of_cons; by right|done].
Qed.

Lemma find_first {A} (p : A → bool) (l : list A) (x : A) :
  x ∈ l → p x = true →
  ∃ pre y post, l = pre ++ y :: post ∧ find p l = Some y ∧ p y = true
                ∧ ∀ z, z ∈ pre → p z = false.
Proof.
  induction l as [|a l IH]; intros Hin Hp.
  - by apply elem_of_nil in Hin.
  - simpl. destruct (p a) eqn:Hpa.
    + exists [], a, l. repeat split; try done.
      intros z Hz. by apply elem_of_nil in Hz.
    + apply elem_of_cons in Hin as [->|Hin]; [congruence|].
      destruct (IH Hin Hp) as (pre & y & post & -> & Hf & Hy & Hpre).
      exists (a :: pre), y, post. repeat split; try done.
      intros z Hz. apply elem_of_cons in Hz as [->|Hz]; [done|by apply Hpre].
Qed.

(** C2. For every sequence of Laps the fastest-lap effect yields no lap when
    no lap is valid, and otherwise yields the lap at the first position that
    holds a valid lap of minimum time: valid laps before it are strictly
    slower, valid laps after it are not faster. In particular, for
    [{time:1000, valid}, {time:900, invalid}, {time:1100, valid}] it yields
    the lap of time 1000. *)
Theorem fastest_lap_min_valid :
  (∀ l, Forall is_lap l →
     ((∀ o t, Obj o ∈ l → ¬ valid_lap o t) ∧ fastestLapEffect l = Ok [])
     ∨ (∃ pre o t post,
          l = pre ++ Obj o :: post ∧ valid_lap o t
          ∧ fastestLapEffect l = Ok [Obj o]
          ∧ (∀ o' t', Obj o' ∈ pre → valid_lap o' t' → (t < t')%Z)
          ∧ (∀ o' t', Obj o' ∈ post → valid_lap o' t' → (t ≤ t')%Z)))
  ∧ fastestLapEffect example_laps = Ok [Obj (lap 0 1000 0 true)].
Proof.
  split; [|by vm_compute].
  intros l Hwf. destruct (validLaps_total l Hwf) as (vs & Hvs & Hall).
  destruct vs as [|v vs].
  - left. split.
    + intros o t Hin Hval.
      pose proof (validLaps_elem l [] o t Hvs Hin Hval) as Hnil.
      by apply elem_of_nil in Hnil.
    + unfold fastestLapEffect. destruct (length l =? 0); [done|]. by rewrite Hvs.
  - right.
    destruct (Math_min_spec v vs Hall) as (m & Hm & Hmin & (o0 & Hin0 & Ho0)).
    destruct (find_first (λ o, strict_eq (get o "time") (JNumber (Num m)))
                (v :: vs) o0 Hin0) as (vpre & o & vpost & Heq & Hfind & Hp & Hbefore).
    { rewrite (get_some _ _ _ Ho0). by apply strict_eq_num. }
    pose proof Hvs as Hvs'. rewrite Heq in Hvs'.
    destruct (validLaps_split l Hwf vpre o vpost Hvs')
      as (pre & post & t & -> & Hvo & Hpre & Hpost).
    assert (t = m) as ->.
    { rewrite (get_some _ _ _ (proj2 Hvo)) in Hp. by apply strict_eq_num. }
    exists pre, o, m, post. split_and!; [done|done| | |].
    + unfold fastestLapEffect.
      replace (length (pre ++ Obj o :: post) =? 0) with false
        by (symmetry; apply Nat.eqb_neq; rewrite length_app; simpl; lia).
      rewrite Hvs. simpl. simpl in Hfind. by rewrite Hm, Hfind.
    + intros o' t' Hin Hval.
      assert (o' ∈ vpre) as Hin' by (by eapply validLaps_elem).
      assert (m ≤ t')%Z.
      { apply (Hmin o'); [|apply Hval]. rewrite Heq. apply elem_of_app. by left. }
      specialize (Hbefore o' Hin'). simpl in Hbefore.
      rewrite (get_some _ _ _ (proj2 Hval)) in Hbefore.
      assert (t' ≠ m).
      { intros ->. by rewrite (proj2 (strict_eq_num m m) eq_refl) in Hbefore. }
      lia.
    + intros o' t' Hin Hval.
      assert (o' ∈ vpost) as Hin' by (by eapply validLaps_elem).
      apply (Hmin o'); [|apply Hval]. rewrite Heq. apply elem_of_app. right.
      apply elem_of_cons. by right.
Qed.

Lemma fastest_lap_min_valid_witness :
  Forall is_lap example_laps
  ∧ ((∀ o t, Obj o ∈ example_laps → ¬ valid_lap o t)
     ∧ fastestLapEffect example_laps = Ok []
     ∨ (∃ pre o t post,
          example_laps = pre ++ Obj o :: post ∧ valid_lap o t
          ∧ fastestLapEffect example_laps = Ok [Obj o]
          ∧ (∀ o' t', Obj o' ∈ pre → valid_lap o' t' → (t < t')%Z)
          ∧ (∀ o' t', Obj o' ∈ post → valid_lap o' t' → (t ≤ t')%Z))).
Proof.
  assert (Forall is_lap example_laps) as Hwf.
  { repeat apply Forall_cons_2; [| | |apply Forall_nil_2].
    - by exists (lap 0 1000 0 true), 1000%Z, true.
    - by exists (lap 1 900 0 false), 900%Z, false.
    - by exists (lap 2 1100 0 true), 1100%Z, true. }
  split; [exact Hwf|].
  exact (proj1 fastest_lap_min_valid example_laps Hwf).
Defined.

(** C1. Starting from an empty lap sequence, every run of capture-lap calls
    (valid or DNF), interleaved with undo calls that each meet a non-empty
    sequence (and with car resets and the passing of time), completes without
    an error and ends with [laps[i].id == i] at every index; and a capture-lap
    call, in any state, makes [laps] exactly one longer. *)
Theorem lap_ids_dense (cs : list call) (s : state) :
  laps s = [] →
  undo_on_nonempty 0 cs = true →
  (∃ s', run cs s = Ok s' ∧ dense (laps s'))
  ∧ (∀ s0 lapIsValid,
       length (laps (captureNewLapHandler lapIsValid s0)) = S (length (laps s0))).
Proof.
  intros Hl Hcs. split.
  - apply run_dense; rewrite Hl; [apply dense_nil|done].
  - intros s0 b. apply length_capture.
Qed.

Lemma lap_ids_dense_witness :
  let cs := [CaptureLap true; Elapse 1500; CarReset; CaptureLap false;
             UndoFalseFinish; CaptureLap true] in
  let s := startLapTimer race_not_started in
  (laps s = [] ∧ undo_on_nonempty 0 cs = true)
  ∧ (∃ s', run cs s = Ok s' ∧ dense (laps s'))
  ∧ (∀ s0 lapIsValid,
       length (laps (captureNewLapHandler lapIsValid s0)) = S (length (laps s0))).
Proof.
  intros cs s. split; [split; reflexivity|].
  apply (lap_ids_dense cs s); reflexivity.
Defined.

(** C3. Capturing a lap when the stopwatch shows [t], letting [d] more
    milliseconds pass and undoing the capture succeeds, removes exactly the
    captured lap, so that [laps.length] is what it was before the capture,
    and sets the stopwatch to the removed lap's time plus the time elapsed
    since the capture: [t + d] while the stopwatch runs, hence [t] itself when
    the undo is immediate. *)
Theorem undo_after_capture (s : state) (lapIsValid : bool) (t d : Z) :
  timeInMilliseconds s = Num t →
  let s1 := captureNewLapHandler lapIsValid s in
  let s2 := elapse d s1 in
  ∃ removedLap s',
    laps s2 = spread (laps s) ++ [Obj removedLap]
    ∧ removedLap !! "time" = Some (JNumber (Num t))
    ∧ undoFalseFinishHandler s2 = Ok s'
    ∧ laps s' = spread (laps s)
    ∧ (Forall (λ x, x ≠ Hole) (laps s) → laps s' = laps s)
    ∧ length (laps s') = length (laps s)
    ∧ timeInMilliseconds s' = js_plus (JNumber (timeInMilliseconds s2)) (get removedLap "time")
    ∧ timeInMilliseconds s' = Num ((if lapTimerIsRunning s then d else 0) + t)
    ∧ (d = 0%Z → timeInMilliseconds s' = timeInMilliseconds s).
Proof.
  intros Ht s1 s2.
  destruct (laps_capture lapIsValid s) as (o & Hl & _ & Htime & _).
  rewrite Ht in Htime. fold s1 in Hl.
  assert (laps s2 = laps s1) as Hl2.
  { unfold s2, elapse. by destruct (lapTimerIsRunning s1). }
  assert (timeInMilliseconds s2 = Num (if lapTimerIsRunning s then d else 0)) as Ht2.
  { unfold s2, elapse. change (lapTimerIsRunning s1) with (lapTimerIsRunning s).
    by destruct (lapTimerIsRunning s). }
  assert (spread (spread (laps s)) = spread (laps s)) as Hss.
  { apply spread_no_hole, Forall_fmap, Forall_true. by intros []. }
  exists o. eexists. split; [by rewrite Hl2|]. split; [done|].
  unfold undoFalseFinishHandler.
  assert (spread (laps s2) = spread (laps s) ++ [Obj o]) as ->.
  { by rewrite Hl2, Hl, spread_app, Hss. }
  rewrite pop_snoc. split; [reflexivity|]. simpl.
  split; [done|]. split; [by apply spread_no_hole|].
  split; [apply spread_length|]. split; [done|].
  unfold get. rewrite Htime, Ht2. simpl.
  split; [done|]. intros ->. rewrite Ht.
  by destruct (lapTimerIsRunning s).
Qed.

Lemma undo_after_capture_witness :
  let s := setTime (Num 61250) (startLapTimer race_not_started) in
  timeInMilliseconds s = Num 61250
  ∧ ∃ removedLap s',
      laps (elapse 0 (captureNewLapHandler true s)) = spread (laps s) ++ [Obj removedLap]
      ∧ removedLap !! "time" = Some (JNumber (Num 61250))
      ∧ undoFalseFinishHandler (elapse 0 (captureNewLapHandler true s)) = Ok s'
      ∧ laps s' = spread (laps s)
      ∧ (Forall (λ x, x ≠ Hole) (laps s) → laps s' = laps s)
      ∧ length (laps s') = length (laps s)
      ∧ timeInMilliseconds s'
        = js_plus (JNumber (timeInMilliseconds (elapse 0 (captureNewLapHandler true s))))
            (get removedLap "time")
      ∧ timeInMilliseconds s' = Num ((if lapTimerIsRunning s then 0 else 0) + 61250)
      ∧ (0%Z = 0%Z → timeInMilliseconds s' = timeInMilliseconds s).
Proof.
  intros s. split; [reflexivity|].
  apply (undo_after_capture s true 61250 0). reflexivity.
Defined.

(** C4. [resetRace], reached by submitting as well as by abandoning, clears
    the racer, the laps and the stopwatch and reopens the racer selection,
    but leaves the reset counter as it was: after two car resets it is still
    2 at the start of the next session. *)
Theorem end_session_keeps_reset_counter :
  (∀ s, let s' := submitRaceHandler s in
        abandonRaceHandler s = s'
        ∧ username s' = None ∧ laps s' = []
        ∧ timeInMilliseconds s' = Num 0 ∧ lapTimerIsRunning s' = false
        ∧ timerIsReset s' = true ∧ phase_of s' = AwaitingRacer
        ∧ racerSelecorModalIsVisible s' = true
        ∧ carResetCounter s' = carResetCounter s)
  ∧ (∃ s, session_with_two_resets = Ok s
          ∧ carResetCounter s = 2%Z
          ∧ carResetCounter (submitRaceHandler s) = 2%Z
          ∧ carResetCounter (abandonRaceHandler s) = 2%Z
          ∧ carResetCounter (raceStartedHandler "next" (submitRaceHandler s)) = 2%Z).
Proof.
  split.
  - intros s. by repeat split.
  - eexists. split; [reflexivity|]. by split_and!.
Qed.

(** C7. Undo on an empty lap sequence throws: [pop] returns [undefined] and
    reading its [time] is a [TypeError]; the button is enabled as soon as
    the race is started. *)
Theorem undo_on_empty_throws :
  (∀ s, undoFalseFinishHandler (SetLaps [] s) = Throw TypeError)
  ∧ (∃ s, race_started = Ok s ∧ laps s = []
          ∧ disabled BtnUndoFalseFinish s = false
          ∧ click BtnUndoFalseFinish s = Throw TypeError).
Proof.
  split; [done|]. eexists. split; [reflexivity|]. by repeat split.
Qed.

(** C8, as the specification states it, fails: in a race that was started
    and then paused, the capture handler still appends a lap, valid or DNF. *)
Lemma capture_while_paused_appends :
  ∃ s, race_paused = Ok s
       ∧ lapTimerIsRunning s = false ∧ phase_of s = Paused ∧ laps s = []
       ∧ length (laps (captureNewLapHandler true s)) = 1
       ∧ length (laps (captureNewLapHandler false s)) = 1
       ∧ laps (captureNewLapHandler true s) ≠ laps s.
Proof. eexists. split; [reflexivity|]. by split_and!. Qed.

(** C8, amended. While the lap timer is not running the [DNF] and
    [Capture Lap] buttons are disabled, so a click on them leaves the session
    as it is; the handler itself has no guard and appends a lap. *)
Theorem capture_gated_by_buttons (s : state) (lapIsValid : bool) :
  lapTimerIsRunning s = false →
  click BtnDNF s = Ok s ∧ click BtnCaptureLap s = Ok s
  ∧ length (laps (captureNewLapHandler lapIsValid s)) = S (length (laps s)).
Proof.
  intros Hr. unfold click. simpl. rewrite Hr. simpl.
  repeat split. apply length_capture.
Qed.

Lemma capture_gated_by_buttons_witness :
  let s := race_not_started in
  lapTimerIsRunning s = false
  ∧ click BtnDNF s = Ok s ∧ click BtnCaptureLap s = Ok s
  ∧ length (laps (captureNewLapHandler true s)) = S (length (laps s)).
Proof.
  intros s. split; [reflexivity|].
  apply (capture_gated_by_buttons s true). reflexivity.
Defined.

(** C10. Toggling the validity of an id that is not below [laps.length]
    changes the sequence: index [id] then holds an object whose only
    property is [isValid: true] (no [id], [time], [resets] or [crashes]),
    [laps.length] is [id + 1], and [laps[i].id == i] fails. *)
Theorem toggle_out_of_range (s : state) (id : nat) :
  length (laps s) ≤ id →
  let laps' := laps (actionHandler id s) in
  laps' ≠ laps s
  ∧ (∃ o, laps' !! id = Some (Obj o)
          ∧ o = {["isValid" := JBool true]}
          ∧ o !! "isValid" = Some (JBool true)
          ∧ o !! "id" = None ∧ o !! "time" = None
          ∧ o !! "resets" = None ∧ o !! "crashes" = None)
  ∧ length laps' = S id
  ∧ ¬ dense laps'.
Proof.
  intros Hid laps'.
  assert (index (laps s) id = None) as Hidx.
  { unfold index. by rewrite lookup_ge_None_2. }
  assert (laps' = spread (laps s) ++ replicate (id - length (laps s)) Hole
                    ++ [Obj {["isValid" := JBool true]}]) as Hl'.
  { unfold laps', actionHandler. simpl. rewrite Hidx. unfold array_set.
    rewrite spread_length. case_decide; [lia|]. done. }
  assert (length laps' = S id) as Hlen.
  { rewrite Hl', !length_app, spread_length, length_replicate. simpl. lia. }
  assert (laps' !! id = Some (Obj {["isValid" := JBool true]})) as Hat.
  { rewrite Hl', app_assoc.
    replace id with (length (spread (laps s) ++ replicate (id - length (laps s)) Hole)) at 1.
    - by rewrite list_lookup_middle.
    - rewrite length_app, spread_length, length_replicate. lia. }
  split; [|split; [|split]].
  - intros Heq. rewrite Heq in Hlen. lia.
  - eexists. split; [exact Hat|]. by repeat split.
  - done.
  - intros Hd. destruct (Hd id) as (o & Ho & Hoid); [lia|].
    rewrite Hat in Ho. by simplify_eq.
Qed.

Lemma toggle_out_of_range_witness :
  let s := SetLaps example_laps race_not_started in
  length (laps s) ≤ 5
  ∧ laps (actionHandler 5 s) ≠ laps s
  ∧ (∃ o, laps (actionHandler 5 s) !! 5 = Some (Obj o)
          ∧ o = {["isValid" := JBool true]}
          ∧ o !! "isValid" = Some (JBool true)
          ∧ o !! "id" = None ∧ o !! "time" = None
          ∧ o !! "resets" = None ∧ o !! "crashes" = None)
  ∧ length (laps (actionHandler 5 s)) = 6
  ∧ ¬ dense (laps (actionHandler 5 s)).
Proof.
  intros s. split; [simpl; lia|].
  apply (toggle_out_of_range s 5). simpl. lia.
Defined.

End TimekeeperSpec.

(** ** Properties of the upload modal *)

Module UploadModalSpec.
Import UploadModal.

Lemma status_queries_post_status (w : world) (i c : value) :
  status_queries (post (PostStatus i c) w) = S (status_queries w).
Proof.
  unfold status_queries, post. simpl.
  rewrite filter_app, length_app, filter_cons_True by done. simpl. lia.
Qed.

Lemma settle_status (w : world) (i c r : value) :
  let w' := settle (length (calls w)) (Resolved r) (post (PostStatus i c) w) in
  st w' = set_uploadStatus r (set_result r (st w))
  ∧ interval w' = interval w ∧ timers w' = timers w
  ∧ next_timer w' = next_timer w ∧ calls w' = calls w ++ [PostStatus i c].
Proof.
  intros w'. unfold w', settle, post. simpl.
  rewrite decide_True by (apply elem_of_app; right; by apply list_elem_of_singleton).
  simpl. by rewrite list_lookup_middle.
Qed.

Lemma tick_in_progress (w : world) :
  uploadStatus (st w) = VStr "InProgress" →
  tick w = post (PostStatus (CurrentInstanceId (st w)) (CommandId (st w)))
             (setSt (set_count (count (st w) + 1)) w).
Proof. intros Hs. unfold tick. simpl. rewrite Hs. by rewrite decide_False by (by intros []). Qed.

Lemma tick_terminal (w : world) :
  uploadStatus (st w) ≠ VStr "InProgress" →
  tick w = clearInterval
             (post (PostStatus (CurrentInstanceId (st w)) (CommandId (st w)))
                (setSt (set_count (count (st w) + 1)) w)).
Proof. intros Hs. unfold tick. simpl. by rewrite decide_True. Qed.

Lemma timer_fires_active (t : nat) (w : world) :
  (timers w).*1 = [t] → step (TimerFires t) w = tick w.
Proof.
  intros Ht. simpl. rewrite Ht.
  by rewrite decide_True by (by apply list_elem_of_singleton).
Qed.

Lemma timer_fires_stopped (id : nat) (w : world) :
  timers w = [] → step (TimerFires id) w = w.
Proof. intros Ht. simpl. rewrite Ht. by rewrite decide_False by (by intros ?%elem_of_nil). Qed.

Lemma clear_only_timer (t : nat) (ts : list (nat * nat)) :
  ts.*1 = [t] → filter (λ x, x.1 ≠ t) ts = [].
Proof.
  destruct ts as [|[a d] [|? ?]]; intros Ht; simplify_eq/=.
  by rewrite filter_cons_False by (by intros []).
Qed.

(** One period of an active loop in progress, its query answered by [r]. *)
Lemma poll_period (t : nat) (r : value) (w : world) :
  polling t w →
  let w' := step (Settles (length (calls w)) (Resolved r)) (step (TimerFires t) w) in
  interval w' = Some t ∧ (timers w').*1 = [t] ∧ uploadStatus (st w') = r
  ∧ result (st w') = r ∧ count (st w') = count (st w) + 1
  ∧ status_queries w' = S (status_queries w).
Proof.
  intros (Hi & Ht & Hs) w'. unfold w'.
  rewrite timer_fires_active, tick_in_progress by done.
  set (w0 := setSt (set_count (count (st w) + 1)) w).
  pose proof (settle_status w0 (CurrentInstanceId (st w)) (CommandId (st w)) r)
    as (Hst & Hint & Htm & _ & Hcalls).
  change (calls w0) with (calls w) in *. simpl step.
  rewrite Hst, Hint, Htm. split_and!; try done.
  unfold status_queries. rewrite Hcalls.
  rewrite filter_app, length_app, filter_cons_True by done. simpl. lia.
Qed.

Lemma poll_loop_add (t : nat) (a b : nat) :
  ∀ rs w, poll_loop t rs (a + b) w = poll_loop t (drop a rs) b (poll_loop t rs a w).
Proof.
  induction a as [|a IH]; intros rs w; [done|].
  destruct rs as [|r rs]; simpl.
  - rewrite IH. by rewrite drop_nil.
  - by rewrite IH.
Qed.

Lemma poll_in_progress (t k : nat) (rest : list value) :
  ∀ w, polling t w →
       let w' := poll_loop t (replicate k (VStr "InProgress") ++ rest) k w in
       polling t w' ∧ status_queries w' = status_queries w + k.
Proof.
  induction k as [|k IH]; intros w Hp.
  - simpl. split; [done|lia].
  - pose proof (poll_period t (VStr "InProgress") w Hp) as Hper.
    cbv zeta in Hper. destruct Hper as (Hi & Ht & Hs & _ & _ & Hq).
    destruct (IH _ (conj Hi (conj Ht Hs))) as [Hp' Hq'].
    split; [exact Hp'|]. cbv zeta in Hq'.
    change (poll_loop t (replicate (S k) (VStr "InProgress") ++ rest) (S k) w)
      with (poll_loop t (replicate k (VStr "InProgress") ++ rest) k
              (step (Settles (length (calls w)) (Resolved (VStr "InProgress")))
                 (step (TimerFires t) w))).
    rewrite Hq', Hq. lia.
Qed.

(** C5, as the specification states it, fails: after the three responses
    [InProgress, InProgress, Success] the loop has issued three queries but
    its timer is still active; the fourth period issues a fourth query and
    only then clears the timer. *)
Lemma poll_issues_a_fourth_query :
  let rs := [VStr "InProgress"; VStr "InProgress"; VStr "Success"] in
  let w3 := poll_loop 0 rs 3 uploading in
  let w4 := poll_loop 0 rs 4 uploading in
  status_queries uploading = 0 ∧ timers uploading = [(0, 1000)]
  ∧ status_queries w3 = 3 ∧ timers w3 = [(0, 1000)]
  ∧ uploadStatus (st w3) = VStr "Success"
  ∧ status_queries w4 = 4 ∧ timers w4 = []
  ∧ status_queries w4 ≠ 3.
Proof. by vm_compute. Qed.

(** C5, amended. From an upload in progress, when the queries of [k]
    periods are answered [InProgress] and the next one is answered by a
    status [v] other than [InProgress], the loop is still active after these
    [k + 1] queries; the following period issues one more query and clears
    the timer, after which no timer callback runs: [k + 2] queries in all,
    4 for [InProgress, InProgress, Success]. A Refresh then issues exactly one
    more query and starts no timer. *)
Theorem poll_loop_queries (t k : nat) (v : value) (w : world) :
  polling t w →
  v ≠ VStr "InProgress" →
  let rs := replicate k (VStr "InProgress") ++ [v] in
  let w1 := poll_loop t rs (k + 1) w in
  let w2 := poll_loop t rs (k + 2) w in
  let w3 := step RefreshClick w2 in
  (status_queries w1 = status_queries w + (k + 1)
   ∧ (timers w1).*1 = [t] ∧ uploadStatus (st w1) = v)
  ∧ (status_queries w2 = status_queries w + (k + 2)
     ∧ timers w2 = [] ∧ uploadStatus (st w2) = v
     ∧ ∀ id, step (TimerFires id) w2 = w2)
  ∧ (status_queries w3 = status_queries w2 + 1
     ∧ timers w3 = [] ∧ interval w3 = interval w2
     ∧ next_timer w3 = next_timer w2).
Proof.
  intros Hp Hv rs w1 w2 w3.
  destruct (poll_in_progress t k [v] w Hp) as [Hpk Hqk]. fold rs in Hpk, Hqk.
  set (wk := poll_loop t rs k w) in *.
  assert (drop k rs = [v]) as Hdk.
  { unfold rs. by rewrite drop_app_length' by (by rewrite length_replicate). }
  assert (w1 = step (Settles (length (calls wk)) (Resolved v)) (step (TimerFires t) wk))
    as Hw1.
  { unfold w1. by rewrite poll_loop_add, Hdk. }
  pose proof (poll_period t v wk Hpk) as Hper.
  cbv zeta in Hper. rewrite <- Hw1 in Hper.
  destruct Hper as (Hi1 & Ht1 & Hs1 & _ & _ & Hq1).
  assert (w2 = step (TimerFires t) w1) as Hw2.
  { unfold w2, w1. replace (k + 2) with ((k + 1) + 1) by lia.
    rewrite poll_loop_add, drop_ge; [done|].
    unfold rs. rewrite length_app, length_replicate. simpl. lia. }
  assert (status_queries w2 = S (status_queries w1)
          ∧ timers w2 = [] ∧ st w2 = set_count (count (st w1) + 1) (st w1)
          ∧ interval w2 = interval w1 ∧ next_timer w2 = next_timer w1)
    as (Hq2 & Ht2 & Hst2 & Hi2 & Hn2).
  { rewrite Hw2, timer_fires_active, tick_terminal by (done || congruence).
    unfold clearInterval. simpl. rewrite Hi1. simpl.
    rewrite clear_only_timer by done. split_and!; try done.
    apply (status_queries_post_status (setSt (set_count (count (st w1) + 1)) w1)). }
  split_and!.
  - rewrite Hq1, Hqk. lia.
  - done.
  - done.
  - rewrite Hq2, Hq1, Hqk. lia.
  - done.
  - by rewrite Hst2.
  - intros id. by apply timer_fires_stopped.
  - unfold w3. simpl step. unfold uploadModelToCarStatus_start.
    rewrite status_queries_post_status. lia.
  - done.
  - done.
  - done.
Qed.

Lemma poll_loop_queries_witness :
  let rs := replicate 2 (VStr "InProgress") ++ [VStr "Success"] in
  let w1 := poll_loop 0 rs (2 + 1) uploading in
  let w2 := poll_loop 0 rs (2 + 2) uploading in
  let w3 := step RefreshClick w2 in
  (polling 0 uploading ∧ VStr "Success" ≠ VStr "InProgress")
  ∧ (status_queries w1 = status_queries uploading + (2 + 1)
     ∧ (timers w1).*1 = [0] ∧ uploadStatus (st w1) = VStr "Success")
  ∧ (status_queries w2 = status_queries uploading + (2 + 2)
     ∧ timers w2 = [] ∧ uploadStatus (st w2) = VStr "Success"
     ∧ ∀ id, step (TimerFires id) w2 = w2)
  ∧ (status_queries w3 = status_queries w2 + 1
     ∧ timers w3 = [] ∧ interval w3 = interval w2
     ∧ next_timer w3 = next_timer w2).
Proof.
  intros rs w1 w2 w3. split; [split; [by vm_compute|discriminate]|].
  apply (poll_loop_queries 0 2 (VStr "Success") uploading); [by vm_compute|discriminate].
Defined.

(** C6, as the specification states it, fails: the result view is closed
    while the status query of the first period is pending; the timer is
    cleared, but when the query is answered the displayed result and the
    status are overwritten by the response. And a second upload leaves the
    timer of the first one active: its callback still runs and counts. *)
Lemma late_response_after_close_mutates :
  let w := closed_mid_flight in
  let w' := step (Settles 1 (Resolved (VStr "Success"))) w in
  (timers w = [] ∧ pending w = [1]
   ∧ calls w !! 1 = Some (PostStatus (VStr "i-0123") (VStr "cmd-1"))
   ∧ result (st w) = VStr EmptyString
   ∧ uploadStatus (st w) = VStr "InProgress"
   ∧ result (st w') = VStr "Success"
   ∧ uploadStatus (st w') = VStr "Success"
   ∧ st w' ≠ st w)
  ∧ (timers second_upload = [(0, 1000); (1, 1000)]
     ∧ interval second_upload = Some 1
     ∧ count (st second_upload) = 0
     ∧ count (st (step (TimerFires 0) second_upload)) = 1).
Proof. by vm_compute. Qed.

(** C6, amended. The Close button of the result view clears the timer held
    in [this.interval], so that no callback of that timer runs afterwards;
    a status query pending at that moment is not discarded: when it is
    answered, the displayed result and the status become the response. *)
Theorem close_stops_ticks_only (t : nat) (w : world) :
  interval w = Some t →
  let w' := step CloseClick w in
  (t ∉ ((timers w').*1 : list nat))
  ∧ step (TimerFires t) w' = w'
  ∧ resultOpen (st w') = false ∧ result (st w') = VStr EmptyString
  ∧ calls w' = calls w ∧ pending w' = pending w
  ∧ ∀ rid instanceId commandId response,
      rid ∈ pending w →
      calls w !! rid = Some (PostStatus instanceId commandId) →
      let w'' := step (Settles rid (Resolved response)) w' in
      result (st w'') = response ∧ uploadStatus (st w'') = response
      ∧ timers w'' = timers w'.
Proof.
  intros Hi w'.
  assert (timers w' = filter (λ x, x.1 ≠ t) (timers w)) as Ht.
  { unfold w'. simpl. unfold clearInterval. simpl. by rewrite Hi. }
  assert (calls w' = calls w ∧ pending w' = pending w) as [Hc Hp].
  { unfold w'. simpl. unfold clearInterval. simpl. by rewrite Hi. }
  assert (st w' = set_result (VStr EmptyString) (set_resultOpen false (st w))) as Hst.
  { unfold w'. simpl. unfold clearInterval. simpl. by rewrite Hi. }
  assert (t ∉ (timers w').*1) as Hnot.
  { rewrite Ht. intros ([a d] & -> & Hin)%list_elem_of_fmap.
    apply list_elem_of_filter in Hin as [Hne _]. by apply Hne. }
  split_and!; try done.
  - simpl. by rewrite decide_False.
  - by rewrite Hst.
  - by rewrite Hst.
  - intros rid i c r Hrid Hcall w''. unfold w''. simpl. unfold settle.
    rewrite Hp, Hc. rewrite decide_True by done. simpl. by rewrite Hcall.
Qed.

Lemma close_stops_ticks_only_witness :
  let w := step (TimerFires 0) uploading in
  let w' := step CloseClick w in
  interval w = Some 0
  ∧ (0 ∉ ((timers w').*1 : list nat))
  ∧ step (TimerFires 0) w' = w'
  ∧ resultOpen (st w') = false ∧ result (st w') = VStr EmptyString
  ∧ calls w' = calls w ∧ pending w' = pending w
  ∧ ∀ rid instanceId commandId response,
      rid ∈ pending w →
      calls w !! rid = Some (PostStatus instanceId commandId) →
      let w'' := step (Settles rid (Resolved response)) w' in
      result (st w'') = response ∧ uploadStatus (st w'') = response
      ∧ timers w'' = timers w'.
Proof.
  intros w w'. split; [reflexivity|].
  apply (close_stops_ticks_only 0 w). reflexivity.
Defined.

(** C9, as the specification states it, fails: when the remote call returns
    without a command id, the upload function still fulfils, sets the status
    to [InProgress] and starts the poll loop. *)
Lemma upload_without_command_id_starts_poll :
  let w1 := step (UploadClick car1 model1) mounted in
  let w2 := uploading_without_command_id in
  calls w1 = [PostUpload "i-0123" "models/racer/model.tar.gz"]
  ∧ pending w1 = [0]
  ∧ (uploadModelToCar_resume "i-0123" (Resolved VUndefined) w1).2 = Resolved VUndefined
  ∧ CommandId (st w2) = VUndefined
  ∧ uploadStatus (st w2) = VStr "InProgress"
  ∧ interval w2 = Some 0 ∧ timers w2 = [(0, 1000)]
  ∧ status_queries (step (TimerFires 0) w2) = 1.
Proof. by vm_compute. Qed.

(** C9, amended. An upload fails exactly when the remote call errors; then
    nothing of the state changes and no timer is started. When the remote
    call returns, with whatever response, the response becomes the result and
    the command id, the status becomes [InProgress] and a timer with [tick] as
    callback is started at the configured delay. *)
Theorem upload_initiation (w : world) (c : car) (m : model) (o : outcome) :
  let w1 := step (UploadClick c m) w in
  let rid := length (calls w) in
  let w2 := step (Settles rid o) w1 in
  let r := (uploadModelToCar_resume (InstanceId c) o w1).2 in
  calls w1 = calls w ++ [PostUpload (InstanceId c) (key m)]
  ∧ timers w1 = timers w
  ∧ (r = Rejected ↔ o = Rejected)
  ∧ match o with
    | Rejected =>
        st w2 = st w1 ∧ timers w2 = timers w ∧ interval w2 = interval w
        ∧ calls w2 = calls w1
    | Resolved response =>
        r = Resolved response
        ∧ result (st w2) = response ∧ CommandId (st w2) = response
        ∧ CurrentInstanceId (st w2) = VStr (InstanceId c)
        ∧ uploadStatus (st w2) = VStr "InProgress"
        ∧ interval w2 = Some (next_timer w)
        ∧ timers w2 = timers w ++ [(next_timer w, delay (st w))]
        ∧ calls w2 = calls w1
        ∧ calls (tick w2) = calls w1 ++ [PostStatus (VStr (InstanceId c)) response]
    end.
Proof.
  intros w1 rid w2 r.
  assert (w2 = (uploadModelToCar_resume (InstanceId c) o
                  (mkWorld (st w1) (interval w1) (timers w1) (next_timer w1) (calls w1)
                     (filter (λ x, x ≠ rid) (pending w1)))).1) as Hw2.
  { unfold w2. simpl. unfold settle. simpl.
    rewrite decide_True by (apply elem_of_app; right; by apply list_elem_of_singleton).
    by rewrite list_lookup_middle. }
  split; [done|]. split; [done|]. split.
  - unfold r. by destruct o.
  - rewrite Hw2. by destruct o.
Qed.

End UploadModalSpec.

(** ** Further properties of the Timekeeper *)

Module TimekeeperExtra.
Import JS Timekeeper TimekeeperSpec.

Lemma all_objects_no_hole (l : list item) :
  all_objects l → Forall (λ x, x ≠ Hole) l.
Proof. intros H. eapply Forall_impl; [exact H|]. by intros x [o ->]. Qed.

Lemma index_lookup (l : list item) (i : nat) (o : obj) :
  l !! i = Some (Obj o) → index l i = Some o.
Proof. unfold index. by intros ->. Qed.

Lemma spread_lookup_obj (l : list item) (i : nat) (o : obj) :
  l !! i = Some (Obj o) → spread l !! i = Some (Obj o).
Proof. intros Hl. unfold spread. by rewrite list_lookup_fmap, Hl. Qed.

Lemma laps_action_in_range (s : state) (id : nat) (o : obj) :
  laps s !! id = Some (Obj o) →
  laps (actionHandler id s)
  = <[id := Obj (<["isValid" := JBool (js_not (get o "isValid"))]> o)]> (spread (laps s)).
Proof.
  intros Hl. unfold actionHandler. simpl.
  rewrite (index_lookup _ _ _ Hl). simpl. unfold array_set.
  rewrite spread_length. apply lookup_lt_Some in Hl. by rewrite decide_True.
Qed.

(** Toggling the validity of a lap that exists touches nothing else: the
    sequence keeps its length, every other slot is as in the copy, the
    toggled lap keeps all its properties but [isValid], which is negated, and
    [laps[i].id == i] is preserved. *)
Theorem toggle_in_range (s : state) (id : nat) (o : obj) (b : bool) :
  laps s !! id = Some (Obj o) →
  o !! "isValid" = Some (JBool b) →
  let laps' := laps (actionHandler id s) in
  length laps' = length (laps s)
  ∧ (∀ j, j ≠ id → laps' !! j = spread (laps s) !! j)
  ∧ (∃ o', laps' !! id = Some (Obj o')
           ∧ o' !! "isValid" = Some (JBool (negb b))
           ∧ ∀ k, k ≠ "isValid" → o' !! k = o !! k)
  ∧ (dense (laps s) → dense laps').
Proof.
  intros Hl Hb laps'. unfold laps'. rewrite (laps_action_in_range s id o Hl).
  rewrite (get_some _ _ _ Hb). simpl.
  assert (id < length (spread (laps s))) as Hlt.
  { rewrite spread_length. by eapply lookup_lt_Some. }
  split_and!.
  - by rewrite length_insert, spread_length.
  - intros j Hj. by rewrite list_lookup_insert_ne.
  - eexists. split; [by apply list_lookup_insert_eq|]. split.
    + by rewrite lookup_insert_eq.
    + intros k Hk. by rewrite lookup_insert_ne.
  - intros Hd. rewrite (dense_spread _ Hd) in *. intros i Hi.
    rewrite length_insert in Hi. destruct (decide (i = id)) as [->|Hne].
    + destruct (Hd id Hi) as (o0 & Ho0 & Hid). rewrite Hl in Ho0. simplify_eq.
      eexists. split; [by apply list_lookup_insert_eq|].
      by rewrite lookup_insert_ne.
    + destruct (Hd i Hi) as (o0 & Ho0 & Hid). exists o0.
      by rewrite list_lookup_insert_ne.
Qed.

Lemma toggle_in_range_witness :
  let s := SetLaps example_laps race_not_started in
  let laps' := laps (actionHandler 1 s) in
  (laps s !! 1 = Some (Obj (lap 1 900 0 false))
   ∧ lap 1 900 0 false !! "isValid" = Some (JBool false))
  ∧ length laps' = length (laps s)
  ∧ (∀ j, j ≠ 1 → laps' !! j = spread (laps s) !! j)
  ∧ (∃ o', laps' !! 1 = Some (Obj o')
           ∧ o' !! "isValid" = Some (JBool (negb false))
           ∧ ∀ k, k ≠ "isValid" → o' !! k = lap 1 900 0 false !! k)
  ∧ (dense (laps s) → dense laps').
Proof.
  intros s laps'. split; [split; reflexivity|].
  apply (toggle_in_range s 1 (lap 1 900 0 false) false); reflexivity.
Defined.

(** Toggling the same lap twice gives back the state, when no slot of the
    sequence is a hole and the lap's [isValid] is a boolean. *)
Theorem toggle_twice (s : state) (id : nat) (o : obj) (b : bool) :
  Forall (λ x, x ≠ Hole) (laps s) →
  laps s !! id = Some (Obj o) →
  o !! "isValid" = Some (JBool b) →
  actionHandler id (actionHandler id s) = s.
Proof.
  intros Hnh Hl Hb.
  assert (laps (actionHandler id s)
          = <[id := Obj (<["isValid" := JBool (negb b)]> o)]> (laps s)) as H1.
  { rewrite (laps_action_in_range s id o Hl), (get_some _ _ _ Hb).
    by rewrite spread_no_hole. }
  assert (id < length (laps s)) as Hlt by (by eapply lookup_lt_Some).
  assert (laps (actionHandler id (actionHandler id s)) = laps s) as H2.
  { rewrite (laps_action_in_range _ id (<["isValid" := JBool (negb b)]> o)).
    - rewrite H1. unfold get. rewrite lookup_insert_eq. simpl.
      rewrite spread_no_hole.
      + rewrite list_insert_insert_eq, insert_insert_eq.
        unfold js_not. simpl. rewrite negb_involutive.
        rewrite (insert_id o) by done. by apply list_insert_id.
      + apply Forall_insert; [done|]. by intros ?.
    - rewrite H1. by apply list_lookup_insert_eq. }
  destruct s. simpl in *. unfold actionHandler in *. simpl in *.
  unfold SetLaps. simpl. by rewrite H2.
Qed.

Lemma toggle_twice_witness :
  let s := SetLaps example_laps race_not_started in
  (Forall (λ x, x ≠ Hole) (laps s)
   ∧ laps s !! 0 = Some (Obj (lap 0 1000 0 true))
   ∧ lap 0 1000 0 true !! "isValid" = Some (JBool true))
  ∧ actionHandler 0 (actionHandler 0 s) = s.
Proof.
  intros s.
  assert (Forall (λ x, x ≠ Hole) (laps s)) as Hnh.
  { repeat apply Forall_cons_2; [done|done|done|apply Forall_nil_2]. }
  split; [split_and!; [exact Hnh|reflexivity|reflexivity]|].
  apply (toggle_twice s 0 (lap 0 1000 0 true) true Hnh); reflexivity.
Defined.

(** *** The fastest lap and the validity of laps *)

Lemma validLaps_skip (pre post : list item) (o : obj) :
  strict_eq (get o "isValid") (JBool true) = false →
  validLaps (pre ++ Obj o :: post) = validLaps (pre ++ post).
Proof.
  intros Ho. induction pre as [|x pre IH]; simpl.
  - rewrite Ho. by destruct (validLaps post).
  - destruct x; [done|done|]. by rewrite IH.
Qed.

Lemma nonempty_middle (pre post : list item) (x : item) :
  (length (pre ++ x :: post) =? 0) = false.
Proof. apply Nat.eqb_neq. rewrite length_app. simpl. lia. Qed.

(** A lap whose [isValid] is not [true] has no influence on the fastest lap:
    the effect gives the same result, error included, as on the sequence
    without that lap. *)
Theorem invalid_lap_ignored (pre post : list item) (o : obj) :
  strict_eq (get o "isValid") (JBool true) = false →
  fastestLapEffect (pre ++ Obj o :: post) = fastestLapEffect (pre ++ post).
Proof.
  intros Ho. unfold fastestLapEffect.
  rewrite (validLaps_skip pre post o Ho), nonempty_middle.
  destruct (pre ++ post) as [|x l] eqn:Hl; [|done].
  by destruct pre.
Qed.

Lemma invalid_lap_ignored_witness :
  strict_eq (get (lap 1 900 0 false) "isValid") (JBool true) = false
  ∧ fastestLapEffect ([Obj (lap 0 1000 0 true)] ++ Obj (lap 1 900 0 false)
                        :: [Obj (lap 2 1100 0 true)])
    = fastestLapEffect ([Obj (lap 0 1000 0 true)] ++ [Obj (lap 2 1100 0 true)]).
Proof.
  split; [reflexivity|].
  apply (invalid_lap_ignored [Obj (lap 0 1000 0 true)] [Obj (lap 2 1100 0 true)]
           (lap 1 900 0 false)).
  reflexivity.
Defined.

(** Invalidating a valid lap makes the fastest lap the one of the other
    laps: after the toggle the effect yields what it yields on the sequence
    without the toggled lap. In particular, invalidating the fastest lap
    promotes the fastest of the remaining valid laps. *)
Theorem invalidate_promotes_next (s : state) (pre post : list item) (o : obj) :
  laps s = pre ++ Obj o :: post →
  Forall (λ x, x ≠ Hole) (laps s) →
  o !! "isValid" = Some (JBool true) →
  fastestLapEffect (laps (actionHandler (length pre) s))
  = fastestLapEffect (pre ++ post).
Proof.
  intros Hl Hnh Hv.
  assert (laps s !! length pre = Some (Obj o)) as Hat.
  { rewrite Hl. by apply list_lookup_middle. }
  rewrite (laps_action_in_range s _ o Hat), (get_some _ _ _ Hv).
  rewrite spread_no_hole by done. rewrite Hl.
  rewrite insert_app_r_alt by lia. rewrite Nat.sub_diag. simpl.
  unfold fastestLapEffect. rewrite nonempty_middle, validLaps_skip.
  - destruct (pre ++ post) as [|x l] eqn:Hpp; [|done]. by destruct pre.
  - unfold get. by rewrite lookup_insert_eq.
Qed.

Lemma invalidate_promotes_next_witness :
  let s := SetLaps example_laps race_not_started in
  let o := lap 0 1000 0 true in
  let post := [Obj (lap 1 900 0 false); Obj (lap 2 1100 0 true)] in
  (laps s = [] ++ Obj o :: post
   ∧ Forall (λ x, x ≠ Hole) (laps s)
   ∧ o !! "isValid" = Some (JBool true))
  ∧ fastestLapEffect (laps (actionHandler (length ([] : list item)) s))
    = fastestLapEffect ([] ++ post).
Proof.
  intros s o post.
  assert (Forall (λ x, x ≠ Hole) (laps s)) as Hnh.
  { repeat apply Forall_cons_2; [done|done|done|apply Forall_nil_2]. }
  split; [split_and!; [reflexivity|exact Hnh|reflexivity]|].
  apply (invalidate_promotes_next s [] post o); [reflexivity|exact Hnh|reflexivity].
Defined.

Lemma validLaps_undef (l : list item) :
  Undef ∈ l → validLaps l = Throw TypeError.
Proof.
  induction l as [|x l IH]; intros Hin.
  - by apply elem_of_nil in Hin.
  - apply elem_of_cons in Hin. destruct x as [| |o]; simpl.
    + destruct Hin as [|Hin]; [done|]. by apply IH.
    + done.
    + destruct Hin as [|Hin]; [done|]. by rewrite IH.
Qed.

Lemma validLaps_holes (n : nat) (r : list item) :
  validLaps (replicate n Hole ++ r) = validLaps r.
Proof. induction n as [|n IH]; [done|]. simpl. exact IH. Qed.

Lemma validLaps_extended (l : list item) (n : nat) (new : obj) :
  all_objects l →
  new !! "isValid" = Some (JBool true) →
  ∃ vs, validLaps (l ++ replicate n Hole ++ [Obj new]) = Ok (vs ++ [new]).
Proof.
  intros Hl Hnew. induction Hl as [|x l [o ->] _ (vs & IH)].
  - exists []. simpl. rewrite validLaps_holes. simpl.
    by rewrite (get_some _ _ _ Hnew).
  - simpl. rewrite IH. simpl.
    destruct (strict_eq (get o "isValid") (JBool true)).
    + by exists (o :: vs).
    + by exists vs.
Qed.

Lemma find_none {A} (p : A → bool) (l : list A) :
  (∀ x, p x = false) → find p l = None.
Proof. intros Hp. induction l as [|a l IH]; [done|]. simpl. by rewrite Hp. Qed.

Lemma num_min_NaN (a : number) : num_min a NaN = NaN.
Proof. by destruct a. Qed.

(** Toggling an id that is not below [laps.length], on a sequence of
    objects, leaves the fastest-lap table with the single entry
    [undefined]: the new element counts as a valid lap, its missing [time]
    makes the minimum [NaN], and no lap has a time equal to [NaN]. *)
Theorem toggle_out_of_range_fastest_undefined (s : state) (id : nat) :
  all_objects (laps s) →
  length (laps s) ≤ id →
  fastestLapEffect (laps (actionHandler id s)) = Ok [Undef].
Proof.
  intros Hobj Hid.
  assert (laps (actionHandler id s)
          = laps s ++ replicate (id - length (laps s)) Hole
              ++ [Obj (<["isValid" := JBool true]> ∅)]) as Hl'.
  { unfold actionHandler. simpl. unfold index.
    rewrite lookup_ge_None_2 by done. simpl. unfold array_set.
    rewrite spread_length. rewrite decide_False by lia.
    by rewrite spread_no_hole by (by apply all_objects_no_hole). }
  set (new := <["isValid" := JBool true]> ∅ : obj) in *.
  assert (get new "time" = JUndefined) as Hnt by done.
  destruct (validLaps_extended (laps s) (id - length (laps s)) new Hobj)
    as (vs & Hvs); [done|].
  unfold fastestLapEffect. rewrite Hl', Hvs.
  replace (length _ =? 0) with false
    by (symmetry; apply Nat.eqb_neq; rewrite !length_app; simpl; lia).
  simpl.
  assert (∀ v rest, v :: rest = vs ++ [new] →
            Math_min (get v "time") ((λ o, get o "time") <$> rest) = NaN) as Hmin.
  { intros v rest Heq. unfold Math_min. destruct vs as [|v0 vs0]; simpl in Heq.
    - injection Heq as -> ->. simpl. by rewrite Hnt.
    - injection Heq as -> ->. rewrite fmap_app, foldl_app. simpl.
      rewrite Hnt. apply num_min_NaN. }
  destruct (vs ++ [new]) as [|v rest] eqn:Heq.
  - by destruct vs.
  - assert (∀ x : obj, strict_eq (get x "time") (JNumber NaN) = false) as Hp.
    { intros x. unfold strict_eq. by destruct (get x "time") as [| | |[]]. }
    rewrite (Hmin v rest eq_refl), Hp. by rewrite find_none.
Qed.

Lemma toggle_out_of_range_fastest_undefined_witness :
  let s := SetLaps example_laps race_not_started in
  (all_objects (laps s) ∧ length (laps s) ≤ 3)
  ∧ fastestLapEffect (laps (actionHandler 3 s)) = Ok [Undef].
Proof.
  intros s.
  assert (all_objects (laps s)) as Hobj.
  { repeat apply Forall_cons_2; [by eexists|by eexists|by eexists|apply Forall_nil_2]. }
  split; [split; [exact Hobj|simpl; lia]|].
  apply (toggle_out_of_range_fastest_undefined s 3 Hobj). simpl. lia.
Defined.

(** Toggling an id above [laps.length] leaves holes behind; the next
    capture copies them as [undefined], and from then on the fastest-lap
    effect throws when it reads [isValid] of such a slot. *)
Theorem capture_after_holes_breaks_effect (s : state) (id : nat) (lapIsValid : bool) :
  length (laps s) < id →
  fastestLapEffect (laps (captureNewLapHandler lapIsValid (actionHandler id s)))
  = Throw TypeError.
Proof.
  intros Hid.
  assert (Hole ∈ laps (actionHandler id s)) as Hhole.
  { unfold actionHandler. simpl. unfold array_set. rewrite spread_length.
    rewrite decide_False by lia. apply elem_of_app. right. apply elem_of_app. left.
    destruct (id - length (laps s)) as [|n] eqn:Hn; [lia|]. simpl.
    apply elem_of_cons. by left. }
  destruct (laps_capture lapIsValid (actionHandler id s)) as (o & Hl & _).
  unfold fastestLapEffect. rewrite Hl.
  replace (length _ =? 0) with false
    by (symmetry; apply Nat.eqb_neq; rewrite length_app; simpl; lia).
  rewrite validLaps_undef; [done|].
  apply elem_of_app. left. unfold spread.
  apply list_elem_of_fmap. by exists Hole.
Qed.

Lemma capture_after_holes_breaks_effect_witness :
  let s := startLapTimer race_not_started in
  length (laps s) < 2
  ∧ fastestLapEffect (laps (captureNewLapHandler true (actionHandler 2 s)))
    = Throw TypeError.
Proof.
  intros s. split; [simpl; lia|].
  apply (capture_after_holes_breaks_effect s 2 true). simpl. lia.
Defined.

(** *** Errors, invariants of a session, pausing *)

Lemma last_spread_obj (l : list item) :
  (∃ o, last (spread l) = Some (Obj o)) ↔ (∃ o, last l = Some (Obj o)).
Proof.
  unfold spread. rewrite fmap_last.
  destruct (last l) as [[| |o]|]; simpl; split; intros [o' Ho']; by eauto.
Qed.

Lemma click_throws (b : button) (s : state) :
  click b s = Throw TypeError
  ↔ b = BtnUndoFalseFinish ∧ lapTimerIsRunning s = true
    ∧ ∀ o, last (laps s) ≠ Some (Obj o).
Proof.
  unfold click. destruct b; simpl;
    try (split; [by destruct (lapTimerIsRunning s)|by intros (? & _)]).
  destruct (lapTimerIsRunning s) eqn:Hr; simpl.
  - unfold undoFalseFinishHandler, pop.
    pose proof (last_spread_obj (laps s)) as Hls.
    destruct (last (spread (laps s))) as [[| |o]|] eqn:Hlast.
    + split; [|done]. intros _. split_and!; try done.
      intros o Ho. destruct (proj2 Hls (ex_intro _ o Ho)) as [? ?]. done.
    + split; [|done]. intros _. split_and!; try done.
      intros o Ho. destruct (proj2 Hls (ex_intro _ o Ho)) as [? ?]. done.
    + split; [done|]. intros (_ & _ & Hno).
      destruct (proj1 Hls (ex_intro _ o eq_refl)) as [o' Ho']. by destruct (Hno o').
    + split; [|done]. intros _. split_and!; try done.
      intros o Ho. destruct (proj2 Hls (ex_intro _ o Ho)) as [? ?]. done.
  - split; [done|]. by intros (_ & ? & _).
Qed.

(** The only control that can fail is [Undo false finish], and it fails
    exactly when the lap timer runs and the last slot of the lap sequence is
    not a lap object, in particular when there is no lap; in every other
    case the click completes. *)
Theorem click_throws_iff (b : button) (s : state) :
  let fails := b = BtnUndoFalseFinish ∧ lapTimerIsRunning s = true
               ∧ ∀ o, last (laps s) ≠ Some (Obj o) in
  (click b s = Throw TypeError ↔ fails)
  ∧ ((∃ s', click b s = Ok s') ↔ ¬ fails).
Proof.
  intros fails. pose proof (click_throws b s) as Hiff. fold fails in Hiff.
  split; [exact Hiff|]. split.
  - intros [s' Hs'] Hf. apply Hiff in Hf. congruence.
  - intros Hnf. destruct (click b s) as [s'|[]] eqn:Hc; [by exists s'|].
    destruct Hnf. by apply Hiff.
Qed.

Lemma handle_invariant (e : ui_event) (s s' : state) :
  handle e s = Ok s' →
  currentLap s = emptyLap
  ∧ (lapTimerIsRunning s = true → is_Some (username s)) →
  currentLap s' = emptyLap
  ∧ (lapTimerIsRunning s' = true → is_Some (username s')).
Proof.
  intros He [Hc Hr]. destruct e as [b| | | | | | | |d]; simpl in He.
  - unfold click in He. destruct (disabled b s) eqn:Hd; [by simplify_eq|].
    destruct b; simpl in He; try (by simplify_eq).
    + unfold undoFalseFinishHandler in He.
      destruct (pop (spread (laps s))) as [l [o|]]; by simplify_eq.
    + simplify_eq. unfold raceHandler.
      destruct (username s) eqn:Hu; simpl.
      * destruct (lapTimerIsRunning s); simpl; rewrite Hu; by eauto.
      * done.
  - by simplify_eq.
  - by simplify_eq.
  - by simplify_eq.
  - by simplify_eq.
  - by simplify_eq.
  - by simplify_eq.
  - by simplify_eq.
  - simplify_eq. unfold elapse.
    destruct (lapTimerIsRunning s) eqn:Hrun; [|by rewrite Hrun].
    split; [done|]. intros _. by apply Hr.
Qed.

(** In every state a session can reach from the first render, whatever the
    events, [currentLap] is the empty lap and the lap timer runs only with a
    racer selected; so a lap captured there is exactly
    [{id: laps.length, time, resets: the reset counter, crashes: 0, isValid}]. *)
Theorem session_invariant (es : list ui_event) (s : state) :
  handle_all es initial = Ok s →
  currentLap s = emptyLap
  ∧ (lapTimerIsRunning s = true → is_Some (username s))
  ∧ ∀ lapIsValid t,
      timeInMilliseconds s = Num t →
      last (laps (captureNewLapHandler lapIsValid s))
      = Some (Obj (lap (Z.of_nat (length (laps s))) t (carResetCounter s) lapIsValid)).
Proof.
  assert (∀ es s0 s1, handle_all es s0 = Ok s1 →
            currentLap s0 = emptyLap
            ∧ (lapTimerIsRunning s0 = true → is_Some (username s0)) →
            currentLap s1 = emptyLap
            ∧ (lapTimerIsRunning s1 = true → is_Some (username s1))) as Hall.
  { clear. induction es as [|e es IH]; intros s0 s1 Hrun Hinv; simpl in Hrun.
    - by simplify_eq.
    - destruct (handle e s0) as [s0'|] eqn:He; [|done]. simpl in Hrun.
      eapply IH; [exact Hrun|]. by eapply handle_invariant. }
  intros Hrun. destruct (Hall es initial s Hrun) as [Hc Hr].
  { split; [done|]. by intros ?. }
  split; [done|]. split; [done|]. intros b t Ht.
  unfold captureNewLapHandler. simpl. rewrite last_snoc, Hc, Ht. done.
Qed.

Lemma session_invariant_witness :
  let es := [RacerSelected "racer"; Click BtnStartPauseRace; TimePasses 31000;
             Click BtnCarReset; Click BtnCaptureLap; LapAction 0; RaceExpired;
             Click BtnEndRace; SubmitRace; RacerSelected "next"] in
  ∃ s, handle_all es initial = Ok s
       ∧ currentLap s = emptyLap
       ∧ (lapTimerIsRunning s = true → is_Some (username s))
       ∧ ∀ lapIsValid t,
           timeInMilliseconds s = Num t →
           last (laps (captureNewLapHandler lapIsValid s))
           = Some (Obj (lap (Z.of_nat (length (laps s))) t (carResetCounter s) lapIsValid)).
Proof.
  intros es. eexists. split; [reflexivity|].
  apply (session_invariant es). reflexivity.
Defined.

Lemma needs_running_noop (e : ui_event) (s : state) :
  needs_running e = true → lapTimerIsRunning s = false → handle e s = Ok s.
Proof.
  intros He Hr. destruct e as [b| | | | | | | |d]; try done.
  - simpl. unfold click. destruct b; try done; simpl; by rewrite Hr.
  - simpl. unfold elapse. by rewrite Hr.
Qed.

Lemma needs_running_all_noop (es : list ui_event) (s : state) :
  forallb needs_running es = true → lapTimerIsRunning s = false →
  handle_all es s = Ok s.
Proof.
  intros Hes Hr. induction es as [|e es IH]; [done|].
  simpl in Hes. apply andb_true_iff in Hes as [He Hes].
  simpl. rewrite (needs_running_noop e s He Hr). simpl. by apply IH.
Qed.

(** While the lap timer is not running, whether before the start, after a
    pause or after the race clock has expired, no sequence of clicks on
    [DNF], [Car Reset], [Capture Lap], [-1] and [Undo false finish] and no
    passing of time changes anything of the session. *)
Theorem halted_session_is_frozen (es : list ui_event) (s : state) :
  forallb needs_running es = true →
  handle_all es (raceIsOverHandler s) = Ok (raceIsOverHandler s)
  ∧ (lapTimerIsRunning s = false → handle_all es s = Ok s).
Proof.
  intros Hes. split; by apply needs_running_all_noop.
Qed.

Lemma halted_session_is_frozen_witness :
  let es := [Click BtnCaptureLap; TimePasses 5000; Click BtnUndoFalseFinish;
             Click BtnDNF; Click BtnCarReset; Click BtnMinus1] in
  let s := startLapTimer race_not_started in
  forallb needs_running es = true
  ∧ handle_all es (raceIsOverHandler s) = Ok (raceIsOverHandler s)
  ∧ (lapTimerIsRunning s = false → handle_all es s = Ok s).
Proof.
  intros es s. split; [reflexivity|].
  apply (halted_session_is_frozen es s). reflexivity.
Defined.

Lemma handle_all_app (es1 es2 : list ui_event) (s s1 : state) :
  handle_all es1 s = Ok s1 → handle_all (es1 ++ es2) s = handle_all es2 s1.
Proof.
  revert s. induction es1 as [|e es1 IH]; intros s Hrun; simpl in *.
  - by simplify_eq.
  - destruct (handle e s) as [s'|]; [|done]. simpl in *. by apply IH.
Qed.

(** Pausing a running race and resuming it gives back the very state of
    the pause, whatever was clicked or however much time passed in between
    on the controls that need a running timer: the lap time, the reset
    counter and the laps are those of the moment of the pause. *)
Theorem pause_resume_round_trip (es : list ui_event) (s : state) :
  lapTimerIsRunning s = true →
  is_Some (username s) →
  forallb needs_running es = true →
  handle_all (Click BtnStartPauseRace :: es ++ [Click BtnStartPauseRace]) s = Ok s.
Proof.
  intros Hr [n Hu] Hes. simpl. unfold click. simpl.
  unfold raceHandler at 1. rewrite Hu, Hr. simpl.
  rewrite (handle_all_app es _ (pauseLapTimer s) (pauseLapTimer s))
    by (by apply needs_running_all_noop).
  simpl. unfold click. simpl. unfold raceHandler. simpl. rewrite Hu. simpl.
  destruct s. simpl in *. by subst.
Qed.

Lemma pause_resume_round_trip_witness :
  let es := [Click BtnCaptureLap; TimePasses 90000; Click BtnCarReset] in
  let s := setTime (Num 12340) (startLapTimer race_not_started) in
  (lapTimerIsRunning s = true ∧ is_Some (username s)
   ∧ forallb needs_running es = true)
  ∧ handle_all (Click BtnStartPauseRace :: es ++ [Click BtnStartPauseRace]) s = Ok s.
Proof.
  intros es s. split; [split_and!; [reflexivity|by eexists|reflexivity]|].
  apply (pause_resume_round_trip es s); [reflexivity|by eexists|reflexivity].
Defined.

(** Undoing a capture does not give back the reset counter: the capture
    stores the counter in the lap and sets it to zero, the undo removes the
    lap and leaves the counter at zero. *)
Theorem undo_loses_reset_counter (s : state) (lapIsValid : bool) (d : Z) :
  ∃ removedLap s',
    laps (elapse d (captureNewLapHandler lapIsValid s))
    = spread (laps s) ++ [Obj removedLap]
    ∧ removedLap !! "resets" = Some (JNumber (Num (carResetCounter s)))
    ∧ undoFalseFinishHandler (elapse d (captureNewLapHandler lapIsValid s)) = Ok s'
    ∧ laps s' = spread (laps s)
    ∧ carResetCounter s' = 0%Z.
Proof.
  destruct (laps_capture lapIsValid s) as (o & Hl & _ & _ & _ & Hres).
  set (s1 := captureNewLapHandler lapIsValid s) in *.
  assert (laps (elapse d s1) = laps s1 ∧ carResetCounter (elapse d s1) = 0%Z)
    as [Hl2 Hc2].
  { unfold elapse. by destruct (lapTimerIsRunning s1). }
  exists o. eexists. split; [by rewrite Hl2|]. split; [done|].
  unfold undoFalseFinishHandler.
  assert (spread (laps (elapse d s1)) = spread (laps s) ++ [Obj o]) as ->.
  { rewrite Hl2, Hl, spread_app. f_equal.
    apply spread_no_hole, Forall_fmap, Forall_true. by intros []. }
  rewrite pop_snoc. split; [reflexivity|]. simpl. by split.
Qed.

Lemma sum_snoc (ts : list Z) (t : Z) :
  foldr Z.add 0%Z (ts ++ [t]) = (foldr Z.add 0%Z ts + t)%Z.
Proof. induction ts as [|a ts IH]; simpl; lia. Qed.

(** Undo can be repeated: undoing the last [k] laps one after the other
    removes them, leaves the laps before them in place and puts the sum of
    their times back on the stopwatch. *)
Theorem undo_repeated (ls : list obj) :
  ∀ (s : state) (base : list item) (ts : list Z) (t : Z),
    laps s = base ++ (Obj <$> ls) →
    Forall (λ x, x ≠ Hole) base →
    Forall2 (λ o t, o !! "time" = Some (JNumber (Num t))) ls ts →
    timeInMilliseconds s = Num t →
    ∃ s', run (replicate (length ls) UndoFalseFinish) s = Ok s'
          ∧ laps s' = base
          ∧ timeInMilliseconds s' = Num (t + foldr Z.add 0%Z ts)
          ∧ carResetCounter s' = carResetCounter s.
Proof.
  induction ls as [|o ls IH] using rev_ind; intros s base ts t Hl Hb Hts Ht.
  - apply Forall2_nil_inv_l in Hts as ->. exists s. simpl in *.
    rewrite app_nil_r in Hl. rewrite Ht, Z.add_0_r. by split_and!.
  - apply Forall2_app_inv_l in Hts as (ts' & tl & Hts' & Hlast & ->).
    apply Forall2_cons_inv_l in Hlast as (to & tl' & Hto & Hnil & ->).
    apply Forall2_nil_inv_l in Hnil as ->.
    rewrite length_app. simpl. rewrite Nat.add_1_r. simpl.
    rewrite fmap_app, app_assoc in Hl. simpl in Hl.
    assert (Forall (λ x, x ≠ Hole) (base ++ (Obj <$> ls))) as Hnh.
    { apply Forall_app. split; [done|]. apply Forall_fmap, Forall_true. by intros ?. }
    set (s1 := SetLaps (base ++ (Obj <$> ls)) (resetLapTimer (Num (t + to)) s)).
    assert (undoFalseFinishHandler s = Ok s1) as ->.
    { unfold undoFalseFinishHandler. rewrite Hl, spread_app.
      rewrite (spread_no_hole _ Hnh). change (spread [Obj o]) with [Obj o].
      rewrite pop_snoc, Ht. by rewrite (get_some _ _ _ Hto). }
    simpl.
    destruct (IH s1 base ts' (t + to)%Z) as (s' & Hrun & Hl' & Ht' & Hc');
      [done|exact Hb|exact Hts'|done|].
    exists s'. split; [exact Hrun|]. split; [done|]. split; [|done].
    rewrite Ht', sum_snoc. f_equal. lia.
Qed.

Lemma undo_repeated_witness :
  let s := setTime (Num 250) (SetLaps example_laps (startLapTimer race_not_started)) in
  let ls := [lap 1 900 0 false; lap 2 1100 0 true] in
  (laps s = [Obj (lap 0 1000 0 true)] ++ (Obj <$> ls)
   ∧ Forall (λ x, x ≠ Hole) [Obj (lap 0 1000 0 true)]
   ∧ Forall2 (λ o t, o !! "time" = Some (JNumber (Num t))) ls [900%Z; 1100%Z]
   ∧ timeInMilliseconds s = Num 250)
  ∧ ∃ s', run (replicate (length ls) UndoFalseFinish) s = Ok s'
          ∧ laps s' = [Obj (lap 0 1000 0 true)]
          ∧ timeInMilliseconds s' = Num (250 + foldr Z.add 0%Z [900%Z; 1100%Z])
          ∧ carResetCounter s' = carResetCounter s.
Proof.
  intros s ls.
  assert (Forall (λ x, x ≠ Hole) [Obj (lap 0 1000 0 true)]) as Hb.
  { apply Forall_cons_2; [done|apply Forall_nil_2]. }
  assert (Forall2 (λ o t, o !! "time" = Some (JNumber (Num t))) ls [900%Z; 1100%Z])
    as Hts.
  { repeat apply Forall2_cons_2; [reflexivity|reflexivity|apply Forall2_nil_2]. }
  split; [split_and!; [reflexivity|exact Hb|exact Hts|reflexivity]|].
  apply (undo_repeated ls s [Obj (lap 0 1000 0 true)] [900%Z; 1100%Z] 250);
    [reflexivity|exact Hb|exact Hts|reflexivity].
Defined.

End TimekeeperExtra.

(** ** Further properties of the upload modal *)

Module UploadModalExtra.
Import UploadModal UploadModalSpec.

Lemma settle_rejected_status (w : world) (i c : value) :
  let w' := settle (length (calls w)) Rejected (post (PostStatus i c) w) in
  st w' = st w ∧ interval w' = interval w ∧ timers w' = timers w
  ∧ calls w' = calls w ++ [PostStatus i c].
Proof.
  intros w'. unfold w', settle, post. simpl.
  rewrite decide_True by (apply elem_of_app; right; by apply list_elem_of_singleton).
  simpl. by rewrite list_lookup_middle.
Qed.

Lemma period_keeps_polling (t : nat) (o : option outcome) (w : world) :
  polling t w → not_terminal o →
  let w1 := step (TimerFires t) w in
  let w' := match o with
            | Some o => step (Settles (length (calls w)) o) w1
            | None => w1
            end in
  polling t w' ∧ status_queries w' = S (status_queries w)
  ∧ count (st w') = count (st w) + 1.
Proof.
  intros Hp Ho w1 w'. destruct o as [[r|]|].
  - pose proof (Ho r eq_refl) as Hr. subst r.
    pose proof (poll_period t (VStr "InProgress") w Hp) as Hper.
    cbv zeta in Hper. destruct Hper as (Hi & Ht & Hs & _ & Hc & Hq).
    by split_and!.
  - destruct Hp as (Hi & Ht & Hs). unfold w', w1.
    rewrite timer_fires_active, tick_in_progress by done.
    set (w0 := setSt (set_count (count (st w) + 1)) w).
    pose proof (settle_rejected_status w0 (CurrentInstanceId (st w)) (CommandId (st w)))
      as (Hst & Hint & Htm & Hcalls).
    change (calls w0) with (calls w) in *. simpl step.
    unfold polling. rewrite Hst, Hint, Htm. split_and!; try done.
    unfold status_queries. rewrite Hcalls.
    rewrite filter_app, length_app, filter_cons_True by done. simpl. lia.
  - destruct Hp as (Hi & Ht & Hs). unfold w', w1.
    rewrite timer_fires_active, tick_in_progress by done.
    split_and!; try done.
    apply (status_queries_post_status (setSt (set_count (count (st w) + 1)) w)).
Qed.

(** The poll has no ceiling, does not wait for an outstanding request and is
    not stopped by a failing one: as long as every period brings no answer,
    a failed request or the answer [InProgress], the loop stays active and
    issues one status query per period. *)
Theorem poll_continues_without_terminal (t : nat) (os : list (option outcome)) :
  ∀ w, polling t w →
       Forall not_terminal os →
       let w' := poll_outcomes t os w in
       polling t w'
       ∧ status_queries w' = status_queries w + length os
       ∧ count (st w') = count (st w) + length os.
Proof.
  induction os as [|o os IH]; intros w Hp Hos.
  - simpl. split_and!; [done|lia|lia].
  - apply Forall_cons in Hos as [Ho Hos].
    pose proof (period_keeps_polling t o w Hp Ho) as Hper.
    cbv zeta in Hper.
    set (w1 := match o with
               | Some o => step (Settles (length (calls w)) o) (step (TimerFires t) w)
               | None => step (TimerFires t) w
               end) in *.
    destruct Hper as (Hp1 & Hq1 & Hc1).
    destruct (IH w1 Hp1 Hos) as (Hp' & Hq' & Hc').
    change (poll_outcomes t (o :: os) w) with (poll_outcomes t os w1).
    cbv zeta. rewrite length_cons. split; [exact Hp'|]. split.
    + rewrite Hq', Hq1. lia.
    + rewrite Hc', Hc1. lia.
Qed.

Lemma poll_continues_without_terminal_witness :
  let os := [None; Some Rejected; Some (Resolved (VStr "InProgress")); None;
             Some Rejected] in
  (polling 0 uploading ∧ Forall not_terminal os)
  ∧ polling 0 (poll_outcomes 0 os uploading)
  ∧ status_queries (poll_outcomes 0 os uploading) = status_queries uploading + length os
  ∧ count (st (poll_outcomes 0 os uploading)) = count (st uploading) + length os.
Proof.
  intros os.
  assert (Forall not_terminal os) as Hos.
  { repeat apply Forall_cons_2; try apply Forall_nil_2; intros r Hr; by simplify_eq. }
  split; [split; [by vm_compute|exact Hos]|].
  apply (poll_continues_without_terminal 0 os uploading); [by vm_compute|exact Hos].
Defined.

Lemma clearInterval_orphaned (t : nat) (w : world) :
  orphaned t w → orphaned t (clearInterval w).
Proof.
  intros (Hin & Hi & Hn). destruct (interval w) as [id|] eqn:Hint.
  - assert (clearInterval w
            = mkWorld (st w) (interval w) (filter (λ x, x.1 ≠ id) (timers w))
                (next_timer w) (calls w) (pending w)) as ->.
    { unfold clearInterval. by rewrite Hint. }
    split_and!; simpl; [|by rewrite Hint|done].
    apply list_elem_of_fmap in Hin as ([a d] & -> & Hin).
    apply list_elem_of_fmap. exists (a, d). split; [done|].
    apply list_elem_of_filter. split; [|done]. simpl in *. congruence.
  - assert (clearInterval w = w) as ->.
    { unfold clearInterval. by rewrite Hint. }
    split_and!; [done|by rewrite Hint|done].
Qed.

Lemma setInterval_orphaned (t d : nat) (w : world) :
  orphaned t w → orphaned t (setInterval d w).
Proof.
  intros (Hin & Hi & Hn). split_and!; simpl.
  - rewrite fmap_app. apply elem_of_app. by left.
  - intros [= Heq]. lia.
  - lia.
Qed.

Lemma step_orphaned (t : nat) (e : event) (w : world) :
  orphaned t w → orphaned t (step e w).
Proof.
  intros Ho. destruct e as [c m| | | |id|rid o]; simpl.
  - exact Ho.
  - apply clearInterval_orphaned. exact Ho.
  - exact Ho.
  - exact Ho.
  - case_decide; [|done]. unfold tick. simpl. case_decide; [|exact Ho].
    apply clearInterval_orphaned. exact Ho.
  - unfold settle. case_decide; [|done]. simpl.
    destruct (calls w !! rid) as [[i k|i c]|]; [|by destruct o|exact Ho].
    destruct o as [r|]; [|exact Ho]. simpl.
    apply (setInterval_orphaned t (delay (st w))
             (mkWorld (set_uploadStatus (VStr "InProgress")
                         (set_CurrentInstanceId (VStr i)
                            (set_CommandId r (set_result r (st w)))))
                (interval w) (timers w) (next_timer w) (calls w)
                (filter (λ x, x ≠ rid) (pending w)))).
    exact Ho.
Qed.

(** A poll loop that is no longer the one [this.interval] holds, as after a
    second upload was started while the first was polled, can never be
    stopped: whatever happens afterwards, Close included, and even when the
    component is unmounted, its timer stays active and keeps calling
    [tick]. *)
Theorem orphaned_timer_never_cleared (t : nat) (es : list event) :
  ∀ w, orphaned t w →
       let w' := steps es w in
       t ∈ (timers w').*1
       ∧ step (TimerFires t) w' = tick w'
       ∧ t ∈ (timers (componentWillUnmount w')).*1.
Proof.
  assert (∀ w, orphaned t w → orphaned t (steps es w)) as Hall.
  { induction es as [|e es IH]; intros w Ho; [done|].
    unfold steps. simpl. apply IH. by apply step_orphaned. }
  intros w Ho w'. pose proof (Hall w Ho) as Ho'. fold w' in Ho'.
  split; [apply Ho'|]. split.
  - simpl. rewrite decide_True; [done|apply Ho'].
  - apply (clearInterval_orphaned t w' Ho').
Qed.

Lemma orphaned_timer_never_cleared_witness :
  let es := [TimerFires 1; Settles 2 (Resolved (VStr "Success")); TimerFires 1;
             CloseClick; UploadClick car1 model1; CloseClick] in
  let w' := steps es second_upload in
  orphaned 0 second_upload
  ∧ 0 ∈ (timers w').*1
  ∧ step (TimerFires 0) w' = tick w'
  ∧ 0 ∈ (timers (componentWillUnmount w')).*1.
Proof.
  intros es w'.
  assert (orphaned 0 second_upload) as Ho.
  { split_and!; [|by vm_compute|vm_compute; lia].
    vm_compute. apply elem_of_cons. by left. }
  split; [exact Ho|].
  apply (orphaned_timer_never_cleared 0 es second_upload Ho).
Defined.

Lemma status_queries_post_upload (w : world) (i k : string) :
  status_queries (post (PostUpload i k) w) = status_queries w.
Proof.
  unfold status_queries, post. simpl.
  rewrite filter_app, length_app, filter_cons_False by done. simpl. lia.
Qed.

Lemma settle_calls_count (rid : nat) (o : outcome) (w : world) :
  calls (settle rid o w) = calls w ∧ count (st (settle rid o w)) = count (st w).
Proof.
  unfold settle. case_decide; [|done]. simpl.
  destruct (calls w !! rid) as [[i k|i c]|]; by destruct o.
Qed.

Lemma clearInterval_calls_count (w : world) :
  calls (clearInterval w) = calls w ∧ st (clearInterval w) = st w.
Proof. unfold clearInterval. by destruct (interval w). Qed.

Lemma step_accounting (e : event) (w : world) :
  status_queries (step e w) + count (st w)
  = status_queries w + count (st (step e w)) + refreshes [e].
Proof.
  destruct e as [c m| | | |id|rid o]; simpl.
  - unfold uploadModelToCar_start. rewrite status_queries_post_upload.
    unfold status_queries. simpl. lia.
  - destruct (clearInterval_calls_count
                (setSt (set_result (VStr EmptyString)) (setSt (set_resultOpen false) w)))
      as [Hc Hs].
    unfold status_queries. rewrite Hc, Hs. simpl. lia.
  - unfold uploadModelToCarStatus_start. rewrite status_queries_post_status. lia.
  - unfold status_queries. simpl. lia.
  - case_decide; [|lia].
    set (w1 := post (PostStatus (CurrentInstanceId (st w)) (CommandId (st w)))
                 (setSt (set_count (count (st w) + 1)) w)).
    assert (status_queries w1 = S (status_queries w)) as Hq
      by apply (status_queries_post_status (setSt (set_count (count (st w) + 1)) w)).
    destruct (decide (uploadStatus (st w) = VStr "InProgress")) as [Hs|Hs].
    + rewrite (tick_in_progress w Hs). fold w1. rewrite Hq. simpl. lia.
    + rewrite (tick_terminal w Hs). fold w1.
      destruct (clearInterval_calls_count w1) as [Hc Hst].
      unfold status_queries in *. rewrite Hc, Hst, Hq. simpl. lia.
  - destruct (settle_calls_count rid o w) as [Hc Hn].
    unfold status_queries. rewrite Hc, Hn. lia.
Qed.

Lemma refreshes_cons (e : event) (es : list event) :
  refreshes (e :: es) = refreshes [e] + refreshes es.
Proof. by destruct e. Qed.

(** Every status query comes from a tick or from a click on Refresh: over
    any sequence of events, the number of status queries issued grows by the
    growth of the tick counter plus the number of Refresh clicks. From the
    mounted component it is the tick counter plus the Refresh clicks. *)
Theorem status_queries_accounting (es : list event) :
  (∀ w, status_queries (steps es w) + count (st w)
        = status_queries w + count (st (steps es w)) + refreshes es)
  ∧ status_queries (steps es mounted)
    = count (st (steps es mounted)) + refreshes es.
Proof.
  assert (∀ w, status_queries (steps es w) + count (st w)
               = status_queries w + count (st (steps es w)) + refreshes es) as Hall.
  { induction es as [|e es IH]; intros w; [simpl; lia|].
    change (steps (e :: es) w) with (steps es (step e w)).
    pose proof (IH (step e w)) as H1. pose proof (step_accounting e w) as H2.
    rewrite (refreshes_cons e es). lia. }
  split; [exact Hall|].
  pose proof (Hall mounted) as H. simpl in H. lia.
Qed.

(** A timer is removed only by the Close button or by a tick that finds a
    status other than [InProgress]: any other event, the dismissal of the
    result view by other means, Refresh, a new upload and the arrival of any
    response included, keeps every active timer. *)
Theorem timers_kept (e : event) (w : world) :
  e ≠ CloseClick →
  (∀ id, e = TimerFires id → uploadStatus (st w) = VStr "InProgress") →
  timers w `prefix_of` timers (step e w).
Proof.
  intros Hc Ht. destruct e as [c m| | | |id|rid o]; simpl; try done.
  - case_decide; [|done]. by rewrite tick_in_progress by (by eapply Ht).
  - unfold settle. case_decide; [|done]. simpl.
    destruct (calls w !! rid) as [[i k|i c]|]; [|by destruct o|done].
    destruct o as [r|]; [|done]. simpl. by apply prefix_app_r.
Qed.

Lemma timers_kept_witness :
  let w := step (TimerFires 0) uploading in
  let e := Settles 1 (Resolved (VStr "Failed")) in
  (e ≠ CloseClick
   ∧ ∀ id, e = TimerFires id → uploadStatus (st w) = VStr "InProgress")
  ∧ timers w `prefix_of` timers (step e w).
Proof.
  intros w e. split; [split; [discriminate|by intros id Hid]|].
  apply (timers_kept e w); [discriminate|by intros id Hid].
Defined.

End UploadModalExtra.
